(** * Verification of the notebooks of the [learn] repository

    - [intro_to_algorithms/chapter_1/2_Getting_Started.ipynb]:
      [insertion_sort], [merge], [merge_sort];
    - [deep-learning/linear-neural-net-for-regression/
       3.2_Object_Oriented_Disign_For_Implementation.ipynb]:
      [HyperParameters.save_hyperparameters] and the stub methods of
      [Module], [DataModule] and [Trainer].

    Python lists are modelled as Rocq lists indexed the way Python indexes
    them (negative indices count from the end, anything else out of range
    raises [IndexError]); a function that mutates its argument returns the
    final contents of the list. *)

From stdpp Require Import gmap strings list sorting.

Local Open Scope Z_scope.

(** ** Outcomes of running Python code *)

Inductive exn :=
  | IndexError | TypeError | NotImplementedError | AssertionError.

(** [OutOfFuel] only marks that the bound given to a [while] loop or to a
    recursion was too small; the theorems show that it never shows up with
    the bounds the definitions below supply. *)
Inductive result (A : Type) :=
  | Ok (a : A)
  | Raise (e : exn)
  | OutOfFuel.
Arguments Ok {A} a.
Arguments Raise {A} e.
Arguments OutOfFuel {A}.

Global Instance result_bind : MBind result := λ A B k m,
  match m with
  | Ok a => k a
  | Raise e => Raise e
  | OutOfFuel => OutOfFuel
  end.

(** Reduce a [bind] whose first computation has returned. *)
Ltac ok := cbn [mbind result_bind].

(** ** Python lists *)

(** The position a Python index denotes in a list of length [n]. *)
Definition index (n : nat) (i : Z) : option nat :=
  if bool_decide (0 ≤ i < Z.of_nat n) then Some (Z.to_nat i)
  else if bool_decide (- Z.of_nat n ≤ i < 0)
       then Some (Z.to_nat (Z.of_nat n + i))
  else None.

(** [l[i]] *)
Definition getitem {A} (l : list A) (i : Z) : result A :=
  match index (length l) i ≫= (l !!.) with
  | Some v => Ok v
  | None => Raise IndexError
  end.

(** [l[i] = v] *)
Definition setitem {A} (l : list A) (i : Z) (v : A) : result (list A) :=
  match index (length l) i with
  | Some n => Ok (<[n:=v]> l)
  | None => Raise IndexError
  end.

(** [range(lo, hi)], empty when [hi ≤ lo]. *)
Definition range (lo hi : Z) : list Z := seqZ lo (hi - lo).

(** [for k in ks: s = body(k, s)] *)
Fixpoint for_each {S} (ks : list Z) (body : Z → S → result S) (s : S)
  : result S :=
  match ks with
  | [] => Ok s
  | k :: ks => s' ← body k s; for_each ks body s'
  end.

(** ** The numbers the sorting code handles

    The lists hold references to [int] objects: [PyInt n oid] is the object
    of value [n] and identity [oid] (what [id()] and [is] observe).  All
    comparisons in the code look at the value only, the identity is what
    distinguishes two equal numbers of a list.  [PyInf] is [float('inf')],
    the sentinel of [merge]. *)
Inductive val :=
  | PyInt (n : Z) (oid : nat)
  | PyInf.

(** [a <= b] *)
Definition le_val (a b : val) : bool :=
  match a, b with
  | PyInt x _, PyInt y _ => bool_decide (x ≤ y)
  | _, PyInf => true
  | PyInf, PyInt _ _ => false
  end.

(** [a > b] *)
Definition gt_val (a b : val) : bool :=
  match a, b with
  | PyInt x _, PyInt y _ => bool_decide (x > y)
  | PyInf, PyInt _ _ => true
  | _, PyInf => false
  end.

(** The literal [0]. *)
Definition zero : val := PyInt 0 0.

(** A list of integers, as written in a Python list display. *)
Definition ints (l : list Z) : list val := (λ n, PyInt n 0) <$> l.

Definition is_int (v : val) : Prop :=
  match v with PyInt _ _ => True | PyInf => False end.

Module GettingStarted.

(** *** [insertion_sort] *)

(** The [while i >= 0 and A[i] > key] loop; [and] does not evaluate [A[i]]
    when [i < 0]. *)
Fixpoint insertion_while (fuel : nat) (A : list val) (key : val) (i : Z)
  : result (list val * Z) :=
  match fuel with
  | O => OutOfFuel
  | S fuel =>
      cond ← (if bool_decide (i >= 0)
              then a ← getitem A i; Ok (gt_val a key)
              else Ok false);
      if cond : bool then
        a ← getitem A i;
        A ← setitem A (i + 1) a;
        insertion_while fuel A key (i - 1)
      else Ok (A, i)
  end.

(** The body of [for j in range(1, len(A))].  The [while] loop runs at most
    [j] times, as [i] starts at [j - 1] and stops below [0]. *)
Definition insertion_body (j : Z) (A : list val) : result (list val) :=
  key ← getitem A j;
  let i := j - 1 in
  '(A, i) ← insertion_while (S (Z.to_nat j)) A key i;
  setitem A (i + 1) key.

Definition insertion_sort (A : list val) : result (list val) :=
  for_each (range 1 (Z.of_nat (length A))) insertion_body A.

(** *** [merge] *)

(** The body of the last loop of [merge], on the state [(A, i, j)]. *)
Definition merge_body (L R : list val) (k : Z) (s : list val * Z * Z)
  : result (list val * Z * Z) :=
  let '(A, i, j) := s in
  l ← getitem L i;
  r ← getitem R j;
  if le_val l r then
    l ← getitem L i;
    A ← setitem A k l;
    Ok (A, i + 1, j)
  else
    r ← getitem R j;
    A ← setitem A k r;
    Ok (A, i, j + 1).

(** The two copying loops and the sentinels: the lists [L] and [R] the last
    loop reads.  The two allocations [[0] * (n + 1)] are taken to succeed:
    the model is that of calls whose runs are not longer than the list
    (CPython refuses an allocation of some [2^63] places and more). *)
Definition merge_split (A : list val) (p q r : Z)
  : result (list val * list val) :=
  let n1 := q - p + 1 in
  let n2 := r - q in
  let L := replicate (Z.to_nat (n1 + 1)) zero in
  let R := replicate (Z.to_nat (n2 + 1)) zero in
  L ← for_each (range 0 n1)
        (λ j L, a ← getitem A (p + j); setitem L j a) L;
  R ← for_each (range 0 n2)
        (λ j R, a ← getitem A (q + j + 1); setitem R j a) R;
  L ← setitem L n1 PyInf;
  R ← setitem R n2 PyInf;
  Ok (L, R).

Definition merge (A : list val) (p q r : Z) : result (list val) :=
  '(L, R) ← merge_split A p q r;
  let i := 0 in
  let j := 0 in
  '(A, _, _) ← for_each (range p (r + 1)) (merge_body L R) (A, i, j);
  Ok A.

(** *** [merge_sort] *)

(** What a call returns: [None], or the list it was given (the same object,
    whose contents the call has changed in place). *)
Inductive returned := RetNone | RetList.

(** [fuel] bounds the depth of the recursion. *)
Fixpoint merge_sort_rec (fuel : nat) (A : list val) (p r : Z)
  : result (list val * returned) :=
  match fuel with
  | O => OutOfFuel
  | S fuel =>
      if bool_decide (p < r) then
        let q := (p + r) `div` 2 in
        '(A, _) ← merge_sort_rec fuel A p q;
        '(A, _) ← merge_sort_rec fuel A (q + 1) r;
        A ← merge A p q r;
        Ok (A, RetList)
      else Ok (A, RetNone)
  end.

(** Each recursive call is on a strictly shorter range, so [r - p + 1]
    levels are enough.  The recursion limit of CPython is not modelled: the
    depth is the logarithm of [r - p], which the theorems keep within the
    length of the list. *)
Definition merge_sort (A : list val) (p r : Z)
  : result (list val * returned) :=
  merge_sort_rec (S (Z.to_nat (r - p))) A p r.

End GettingStarted.

Import GettingStarted.

(** ** The class notebook *)

(** The values that reach the classes: literals of the default arguments,
    objects (given by their attributes) and classes (given by name).
    [VFloat m e] is the decimal literal [m * 10^e]. *)
#[warnings="-register-all"]
Inductive pyval :=
  | VNone
  | VBool (b : bool)
  | VInt (n : Z)
  | VFloat (m e : Z)
  | VStr (s : string)
  | VList (l : list pyval)
  | VTuple (l : list pyval)
  | VDict (d : list (string * pyval))
  | VObj (attrs : gmap string pyval)
  | VClass (name : string).

Module ObjectOrientedDesign.

(** *** [HyperParameters] *)

(** The dict comprehension
    [{k: v for k, v in local_vars.items()
      if k not in set(ignore+['self']) and not k.startswith('_')}]. *)
Definition hparams_dict (ignore : list string)
    (local_vars : list (string * pyval))
  : list (string * pyval) :=
  filter (λ kv : string * pyval,
            (kv.1 ∉ ignore ++ ["self"]) ∧ (¬ String.prefix "_" kv.1))
         local_vars.

(** [self.save_hyperparameters(ignore)], called from a frame whose local
    variables are [local_vars] (what [inspect.getargvalues] reports for
    [inspect.currentframe().f_back], in the order of the dict).  [self] is
    the attribute dict of the instance, the result is that dict after the
    call. *)
Definition save_hyperparameters (self : gmap string pyval)
    (ignore : list string) (local_vars : list (string * pyval))
  : gmap string pyval :=
  let hparams := hparams_dict ignore local_vars in
  let self := <["hparams" := VDict hparams]> self in
  foldl (λ (self : gmap string pyval) kv, <[kv.1 := kv.2]> self) self hparams.

(** A call [Class(...)]: a new instance without attributes is handed to
    [__init__]. *)
Definition construct (init : gmap string pyval → result (gmap string pyval))
  : result (gmap string pyval) :=
  init ∅.

(** [class B(HyperParameters)]; the two [print] calls are left out. *)
Definition B___init__ (self : gmap string pyval) (a b c : pyval)
  : result (gmap string pyval) :=
  Ok (save_hyperparameters self ["c"]
        [("self", VObj self); ("a", a); ("b", b); ("c", c)]).

(** *** [ProgressBoard] *)

Definition ProgressBoard___init__ (self : gmap string pyval)
    (xlabel ylabel xlim ylim xscale yscale ls colors fig axes figsize
       display : pyval)
  : result (gmap string pyval) :=
  Ok (save_hyperparameters self []
        [("self", VObj self); ("xlabel", xlabel); ("ylabel", ylabel);
         ("xlim", xlim); ("ylim", ylim); ("xscale", xscale);
         ("yscale", yscale); ("ls", ls); ("colors", colors); ("fig", fig);
         ("axes", axes); ("figsize", figsize); ("display", display)]).

(** [ProgressBoard()], every argument at its default. *)
Definition ProgressBoard_default : result (gmap string pyval) :=
  construct (λ self,
    ProgressBoard___init__ self VNone VNone VNone VNone
      (VStr "linear") (VStr "linear")
      (VList [VStr "-"; VStr "--"; VStr "-."; VStr ":"])
      (VList [VStr "C0"; VStr "C1"; VStr "C2"; VStr "C3"])
      VNone VNone (VTuple [VFloat 35 (-1); VFloat 25 (-1)]) (VBool true)).

(** *** [Module] *)

(** A call of [super.__init__], the slot of the builtin type [super] itself
    ([super] is not called): CPython refuses it with [TypeError], without
    arguments ("descriptor '__init__' of 'super' object needs an argument")
    and with a first argument that is not a [super] object, which no value
    of the model is. *)
Definition super___init__ (args : list pyval) : result pyval :=
  match args with
  | [] => Raise TypeError
  | _ :: _ => Raise TypeError
  end.

(** [__class__] is a local variable of the frame, as the body names
    [super]. *)
Definition Module___init__ (self : gmap string pyval)
    (plot_train_per_epoch plot_valid_per_epoch : pyval)
  : result (gmap string pyval) :=
  _ ← super___init__ [];
  let self :=
    save_hyperparameters self []
      [("self", VObj self);
       ("plot_train_per_epoch", plot_train_per_epoch);
       ("plot_valid_per_epoch", plot_valid_per_epoch);
       ("__class__", VClass "Module")] in
  board ← ProgressBoard_default;
  Ok (<["board" := VObj board]> self).

(** [Module(plot_train_per_epoch, plot_valid_per_epoch)] *)
Definition Module_new (plot_train_per_epoch plot_valid_per_epoch : pyval)
  : result (gmap string pyval) :=
  construct (λ self,
    Module___init__ self plot_train_per_epoch plot_valid_per_epoch).

Definition Module_loss (self : gmap string pyval) (y_hat y : pyval)
  : result pyval :=
  Raise NotImplementedError.

Definition Module_configure_optimizers (self : gmap string pyval)
  : result pyval :=
  Raise NotImplementedError.

(** *** [DataModule] *)

Definition DataModule___init__ (self : gmap string pyval)
    (root num_workers : pyval)
  : result (gmap string pyval) :=
  Ok (save_hyperparameters self []
        [("self", VObj self); ("root", root); ("num_workers", num_workers)]).

Definition DataModule_get_dataloader (self : gmap string pyval)
    (train : pyval)
  : result pyval :=
  Raise NotImplementedError.

Definition DataModule_train_dataloader (self : gmap string pyval)
  : result pyval :=
  DataModule_get_dataloader self (VBool true).

Definition DataModule_val_dataloader (self : gmap string pyval)
  : result pyval :=
  DataModule_get_dataloader self (VBool false).

(** *** [Trainer] *)

(** [v == 0] on the values of the model.  The float a literal [m * 10^e]
    denotes is the double nearest to it: that is [0.0], which equals [0],
    exactly when the literal is at most [2^-1075] in magnitude, half the
    smallest positive double (at [2^-1075] itself the tie goes to the even
    neighbour, [0.0]).  For [e ≥ 0] the right-hand side is at most [1], so
    the test is [m = 0]. *)
Definition eq_zero (v : pyval) : bool :=
  match v with
  | VInt n => bool_decide (n = 0)
  | VBool b => negb b
  | VFloat m e => bool_decide (Z.abs m * 2 ^ 1075 ≤ 10 ^ (- e))
  | _ => false
  end.

Definition Trainer___init__ (self : gmap string pyval)
    (max_epochs num_gpus gradient_clip_val : pyval)
  : result (gmap string pyval) :=
  let self :=
    save_hyperparameters self []
      [("self", VObj self); ("max_epochs", max_epochs);
       ("num_gpus", num_gpus); ("gradient_clip_val", gradient_clip_val)] in
  if eq_zero num_gpus then Ok self else Raise AssertionError.

Definition Trainer_fit_epoch (self : gmap string pyval) : result pyval :=
  Raise NotImplementedError.

End ObjectOrientedDesign.

Import ObjectOrientedDesign.

(** *** [ProgressBoard.draw] *)

Module Board.

(** What a call of [draw] does to the attributes [raw_points] and [data],
    up to where the plotting starts.  The plotting itself (the calls of
    [matplotlib] and [IPython.display], and [self.xlabel = self.x]) is not
    followed: it can raise, and the model stops where the call enters it.
    The coordinates are floating-point numbers: their type [num] and the
    mean [lambda x: sum(x) / len(x)] are left open. *)
Section draw.
Context {num : Type} (mean : list num → num).

(** [Point = collections.namedtuple('Point', ['x', 'y'])] *)
Record Point := mkPoint { Point_x : num; Point_y : num }.



(** The two attributes, [None] for an attribute the board does not
    have. *)
Record board := mkBoard {
  raw_points : option (list (string * list Point));
  data : option (list (string * list Point))
}.

Inductive draw_exn := AttributeError | KeyError.


(** How far a piece of code gets: to its end with a value, to an
    exception, or into the plotting, where the model stops. *)
Inductive step (A : Type) :=
  | Val (a : A)
  | Exn (e : draw_exn)
  | Plotting.
#[global] Arguments Val {A} a.
#[global] Arguments Exn {A} e.
#[global] Arguments Plotting {A}.

(** Code that reads and writes the attributes of [self]: what is written
    before an exception, or before the plotting, stays written. *)
Definition M (A : Type) : Type := board → board * step A.

Definition ret {A} (a : A) : M A := λ self, (self, Val a).











End draw.

End Board.

(** ** Specification vocabulary *)

(** The order [<=] of Python on the numbers of the model. *)
Definition val_le (a b : val) : Prop := le_val a b = true.

Global Instance val_le_dec a b : Decision (val_le a b).
Proof. unfold val_le. apply _. Defined.

(** The integer value of an object, [None] for the sentinel. *)
Definition value (v : val) : option Z :=
  match v with PyInt n _ => Some n | PyInf => None end.

(** [A[p..r]], both ends included. *)
Definition sub (A : list val) (p r : Z) : list val :=
  take (Z.to_nat (r - p + 1)) (drop (Z.to_nat p) A).

(** The [__init__] of a class that inherits from [HyperParameters], has the
    parameters [self] and those named in [args] (here with the values they
    are called with), and calls [self.save_hyperparameters(ignore=L)]. *)
Definition hyper___init__ (L : list string) (args : list (string * pyval))
    (self : gmap string pyval)
  : result (gmap string pyval) :=
  Ok (save_hyperparameters self L (("self", VObj self) :: args)).

(** The plain reading of "the names listed in [L] are not set as
    attributes": after construction no name of [L] is an attribute of the
    instance. *)
Definition ignored_names_unset (L : list string)
    (args : list (string * pyval)) : Prop :=
  ∀ inst : gmap string pyval,
    construct (hyper___init__ L args) = Ok inst →
    ∀ k : string, k ∈ L → inst !! k = None.

(** The list [[1, 2, 3, 4, 2, 3, 4, 5]] of the notebook, each number with an
    identity of its own. *)
Definition merge_example : list val :=
  [PyInt 1 0; PyInt 2 1; PyInt 3 2; PyInt 4 3;
   PyInt 2 4; PyInt 3 5; PyInt 4 6; PyInt 5 7].







(** [out] is [l] sorted by a stable sort: in non-decreasing order, with the
    same objects, and the objects of each value in the order they have in
    [l]. *)
Definition stable_sort_of (l out : list val) : Prop :=
  Sorted val_le out ∧
  out ≡ₚ l ∧
  ∀ n : Z,
    filter (λ v, value v = Some n) out = filter (λ v, value v = Some n) l.

(** * Theorems *)

(** ** The monad and Python lists *)

Section lists.
Context {A : Type}.
Implicit Types (l : list A) (x y : A).

Lemma index_nat (n i : nat) : (i < n)%nat → index n (Z.of_nat i) = Some i.
Proof.
  intros Hi. unfold index.
  rewrite bool_decide_eq_true_2 by lia. by rewrite Nat2Z.id.
Qed.

Lemma getitem_lookup l (i : nat) x :
  l !! i = Some x → getitem l (Z.of_nat i) = Ok x.
Proof.
  intros Hl. unfold getitem.
  rewrite index_nat by (by eapply lookup_lt_Some). simpl. by rewrite Hl.
Qed.

Lemma getitem_middle l1 x l2 (i : Z) :
  i = Z.of_nat (length l1) → getitem (l1 ++ x :: l2) i = Ok x.
Proof. intros ->. apply getitem_lookup, list_lookup_middle. done. Qed.

Lemma setitem_middle l1 x l2 (i : Z) y :
  i = Z.of_nat (length l1) →
  setitem (l1 ++ x :: l2) i y = Ok (l1 ++ y :: l2).
Proof.
  intros ->. unfold setitem.
  rewrite index_nat by (rewrite length_app; simpl; lia).
  f_equal. replace (length l1) with (length l1 + 0)%nat at 1 by lia.
  by rewrite insert_app_r.
Qed.

End lists.

Lemma range_cons (lo hi : Z) :
  lo < hi → range lo hi = lo :: range (lo + 1) hi.
Proof.
  intros Hlt. unfold range. rewrite seqZ_cons by lia.
  f_equal. f_equal; lia.
Qed.

Lemma range_nil (lo hi : Z) : hi ≤ lo → range lo hi = [].
Proof. intros Hle. unfold range. apply seqZ_nil. lia. Qed.

Lemma for_each_app {S} (ks1 ks2 : list Z) (body : Z → S → result S) s :
  for_each (ks1 ++ ks2) body s =
  (s' ← for_each ks1 body s; for_each ks2 body s').
Proof.
  revert s. induction ks1 as [|k ks1 IH]; intros s; simpl; [done|].
  destruct (body k s); simpl; auto.
Qed.

(** ** The order on numbers *)

Lemma gt_val_spec a b : gt_val a b = negb (le_val a b).
Proof.
  destruct a, b; simpl; try done.
  destruct (decide (n ≤ n0)).
  - rewrite (bool_decide_eq_true_2 (n ≤ n0)) by done.
    rewrite bool_decide_eq_false_2 by lia. done.
  - rewrite (bool_decide_eq_false_2 (n ≤ n0)) by done.
    rewrite bool_decide_eq_true_2 by lia. done.
Qed.

Global Instance val_le_total : Total val_le.
Proof.
  intros [x ?|] [y ?|]; unfold val_le; simpl; auto.
  rewrite !bool_decide_eq_true. lia.
Qed.

Global Instance val_le_trans : Transitive val_le.
Proof.
  intros [x ?|] [y ?|] [z ?|]; unfold val_le; simpl; try done.
  rewrite !bool_decide_eq_true. lia.
Qed.

Global Instance val_le_refl : Reflexive val_le.
Proof. intros a. by destruct (total val_le a a). Qed.

Lemma gt_val_false a b : gt_val a b = false → val_le a b.
Proof. rewrite gt_val_spec. unfold val_le. by destruct (le_val a b). Qed.

Lemma gt_val_true a b : gt_val a b = true → val_le b a.
Proof.
  rewrite gt_val_spec. intros Hgt.
  destruct (total val_le a b) as [Hab|]; [|done].
  unfold val_le in Hab. by rewrite Hab in Hgt.
Qed.

(** ** [insertion_sort] *)

(** One test of the [while] condition with [0 ≤ i], and the loop body when
    it holds. *)
Lemma insertion_while_step fuel (lo : list val) a x rest key (i : Z) :
  i = Z.of_nat (length lo) →
  insertion_while (S fuel) (lo ++ a :: x :: rest) key i =
  if gt_val a key
  then insertion_while fuel (lo ++ a :: a :: rest) key (i - 1)
  else Ok (lo ++ a :: x :: rest, i).
Proof.
  intros ->. cbn [insertion_while].
  rewrite bool_decide_eq_true_2 by lia.
  rewrite !getitem_middle by done. simpl.
  destruct (gt_val a key); [|done].
  rewrite (cons_middle a lo), (assoc_L (++)).
  rewrite setitem_middle by (rewrite length_app; simpl; lia). simpl.
  by rewrite <- (assoc_L (++)).
Qed.

(** The [while] loop moves the numbers greater than [key] that end [lo] one
    place to the right, and stops at the hole where [key] belongs. *)
Lemma insertion_while_spec (lo : list val) :
  ∀ (fuel : nat) (x : val) (rest : list val) (key : val),
    (length lo < fuel)%nat →
    ∃ lo1 lo2 y,
      lo = lo1 ++ lo2 ∧
      insertion_while fuel (lo ++ x :: rest) key (Z.of_nat (length lo) - 1)
      = Ok (lo1 ++ y :: lo2 ++ rest, Z.of_nat (length lo1) - 1) ∧
      Forall (λ a, gt_val a key = true) lo2 ∧
      (∀ a, last lo1 = Some a → gt_val a key = false).
Proof.
  induction lo as [|a lo IH] using rev_ind; intros fuel x rest key Hfuel.
  - exists [], [], x. destruct fuel as [|fuel]; [simpl in Hfuel; lia|].
    split_and!; [done|done|constructor|done].
  - destruct fuel as [|fuel]; [lia|].
    rewrite length_app in Hfuel. simpl in Hfuel.
    assert (insertion_while (S fuel) ((lo ++ [a]) ++ x :: rest) key
              (Z.of_nat (length (lo ++ [a])) - 1) =
            if gt_val a key
            then insertion_while fuel (lo ++ a :: a :: rest) key
                   (Z.of_nat (length lo) - 1)
            else Ok ((lo ++ [a]) ++ x :: rest, Z.of_nat (length lo))) as ->.
    { rewrite <- (assoc_L (++) lo [a] (x :: rest)), <- cons_middle.
      rewrite (insertion_while_step fuel lo a x rest key)
        by (rewrite length_app; simpl; lia).
      rewrite length_app. simpl.
      destruct (gt_val a key); repeat f_equal; lia. }
    destruct (gt_val a key) eqn:Hgt.
    + destruct (IH fuel a (a :: rest) key)
        as (lo1 & lo2 & y & -> & Hrun & Hhi & Hlo); [lia|].
      exists lo1, (lo2 ++ [a]), y. rewrite Hrun. split_and!.
      * by rewrite (assoc_L (++)).
      * by rewrite <- !(assoc_L (++)).
      * apply Forall_app. split; [done|]. by constructor.
      * done.
    + exists (lo ++ [a]), [], x. split_and!.
      * by rewrite (right_id_L [] (++)).
      * do 2 f_equal. rewrite length_app. simpl. lia.
      * constructor.
      * intros b. rewrite last_snoc. by intros [= <-].
Qed.

(** One round of the outer loop inserts [A[j]] into the sorted prefix
    [A[0..j-1]]. *)
Lemma insertion_body_spec (pre : list val) (key : val) (post : list val) :
  StronglySorted val_le pre →
  ∃ lo1 lo2,
    pre = lo1 ++ lo2 ∧
    insertion_body (Z.of_nat (length pre)) (pre ++ key :: post)
    = Ok (lo1 ++ key :: lo2 ++ post) ∧
    StronglySorted val_le (lo1 ++ key :: lo2).
Proof.
  intros Hpre. unfold insertion_body.
  rewrite getitem_middle by done. ok.
  destruct (insertion_while_spec pre (S (Z.to_nat (Z.of_nat (length pre))))
              key post key) as (lo1 & lo2 & y & -> & Hrun & Hhi & Hlo); [lia|].
  exists lo1, lo2. rewrite Hrun. ok. split_and!; [done| |].
  - apply setitem_middle. lia.
  - apply StronglySorted_app in Hpre as (Hcross & Hs1 & Hs2).
    apply StronglySorted_app_2; [|done|].
    + intros x1 x2 Hx1 Hx2.
      assert (val_le x1 key) as Hx1key.
      { destruct (last lo1) as [b|] eqn:Hlast.
        - apply last_Some in Hlast as [lo1' ->].
          specialize (Hlo b eq_refl). apply gt_val_false in Hlo.
          apply elem_of_app in Hx1 as [Hx1| ->%list_elem_of_singleton]; [|done].
          etrans; [|done].
          apply (StronglySorted_app_1_elem_of _ _ _ _ _ Hs1 Hx1).
          by apply list_elem_of_singleton.
        - apply last_None in Hlast as ->. by apply elem_of_nil in Hx1. }
      apply elem_of_cons in Hx2 as [->|Hx2]; [done|].
      by apply Hcross.
    + apply StronglySorted_cons. split; [|done].
      eapply Forall_impl; [done|]. intros b. apply gt_val_true.
Qed.

Lemma insertion_loop_spec (n : nat) :
  ∀ (B : list val) (j : nat),
    (length B - j)%nat = n →
    StronglySorted val_le (take j B) →
    ∃ B', for_each (range (Z.of_nat j) (Z.of_nat (length B))) insertion_body B
          = Ok B' ∧ B' ≡ₚ B ∧ StronglySorted val_le B'.
Proof.
  induction n as [|n IH]; intros B j Hn Hsorted.
  - exists B. rewrite range_nil by lia.
    rewrite take_ge in Hsorted by lia. done.
  - destruct (lookup_lt_is_Some_2 B j) as [key Hkey]; [lia|].
    rewrite range_cons by lia. cbn [for_each].
    destruct (insertion_body_spec (take j B) key (drop (S j) B))
      as (lo1 & lo2 & Hlo & Hrun & Hs); [done|].
    rewrite length_take_le in Hrun by lia.
    rewrite (take_drop_middle B j key Hkey) in Hrun. rewrite Hrun. ok.
    assert (lo1 ++ key :: lo2 ++ drop (S j) B ≡ₚ B) as Hperm.
    { rewrite <- (take_drop_middle B j key Hkey) at 2. rewrite Hlo.
      rewrite <- (assoc_L (++)). f_equiv.
      by rewrite <- Permutation_middle. }
    assert (length (lo1 ++ key :: lo2 ++ drop (S j) B) = length B) as Hlen.
    { by rewrite Hperm. }
    destruct (IH (lo1 ++ key :: lo2 ++ drop (S j) B) (S j))
      as (B' & Hrun' & Hperm' & Hs'); [lia| |].
    + replace (lo1 ++ key :: lo2 ++ drop (S j) B)
        with ((lo1 ++ key :: lo2) ++ drop (S j) B)
        by (by rewrite <- (assoc_L (++))).
      replace (S j) with (length (lo1 ++ key :: lo2)) at 1.
      * by rewrite take_app_length.
      * apply (f_equal length) in Hlo. rewrite length_take_le in Hlo by lia.
        rewrite length_app in Hlo |- *. simpl. lia.
    + exists B'. rewrite Hlen in Hrun'.
      replace (Z.of_nat j + 1) with (Z.of_nat (S j)) by lia.
      split_and!; [done| |done]. by rewrite Hperm'.
Qed.

(** The whole run of [insertion_sort]. *)
Lemma insertion_sort_run (A : list val) :
  ∃ A', insertion_sort A = Ok A' ∧ A' ≡ₚ A ∧ StronglySorted val_le A'.
Proof.
  unfold insertion_sort.
  apply (insertion_loop_spec (length A - 1) A 1); [done|].
  destruct A as [|a A]; simpl; [constructor|].
  rewrite take_0. repeat constructor.
Qed.

(** The list of the notebook. *)
Example insertion_sort_example :
  insertion_sort (ints [5; 2; 4; 6; 1; 3]) = Ok (ints [1; 2; 3; 4; 5; 6]).
Proof. vm_compute. reflexivity. Qed.

(** C2. [insertion_sort(A)] returns, for every list [A], a permutation of
    the contents of [A] that is in non-decreasing order. *)
Theorem insertion_sort_correct (A : list val) :
  ∃ A', insertion_sort A = Ok A' ∧ A' ≡ₚ A ∧ Sorted val_le A'.
Proof.
  destruct (insertion_sort_run A) as (A' & Hrun & Hp & Hs).
  exists A'. split_and!; [done|done|]. by apply StronglySorted_Sorted.
Qed.

(** ** [merge] *)

(** A copying loop [for j in range(n): L[j] = A[ix(j)]] over a block [xs]
    of [A]. *)
Lemma copy_loop_spec (A2 : list val) (ix : Z → Z) (xs : list val) :
  ∀ (A1 done rest : list val) (j0 : Z),
    j0 = Z.of_nat (length done) →
    (∀ j, ix j = Z.of_nat (length A1) + (j - j0)) →
    (length xs ≤ length rest)%nat →
    for_each (range j0 (j0 + Z.of_nat (length xs)))
      (λ j L, a ← getitem (A1 ++ xs ++ A2) (ix j); setitem L j a)
      (done ++ rest)
    = Ok (done ++ xs ++ drop (length xs) rest).
Proof.
  induction xs as [|x xs IH]; intros A1 done rest j0 Hj0 Hix Hlen.
  - rewrite range_nil by (simpl; lia). done.
  - destruct rest as [|z rest]; [simpl in Hlen; lia|].
    simpl in Hlen. rewrite range_cons by (simpl length; lia).
    cbn [for_each app].
    rewrite (getitem_middle A1 x) by (rewrite Hix; lia). ok.
    rewrite setitem_middle by done. ok.
    specialize (IH (A1 ++ [x]) (done ++ [x]) rest (j0 + 1)).
    rewrite <- !(assoc_L (++)) in IH. simpl in IH.
    replace (j0 + Z.of_nat (length (x :: xs)))
      with (j0 + 1 + Z.of_nat (length xs)) by (simpl length; lia).
    rewrite IH; [done| | |lia].
    + rewrite length_app. simpl. lia.
    + intros j. rewrite Hix, length_app. simpl. lia.
Qed.

(** [merge] first copies the two runs and ends each with the sentinel. *)
Lemma merge_split_spec (A1 l r A2 : list val) (p q rr : Z) :
  p = Z.of_nat (length A1) →
  q = p + Z.of_nat (length l) - 1 →
  rr = q + Z.of_nat (length r) →
  merge_split (A1 ++ l ++ r ++ A2) p q rr = Ok (l ++ [PyInf], r ++ [PyInf]).
Proof.
  intros -> -> ->. unfold merge_split.
  replace (Z.of_nat (length A1) + Z.of_nat (length l) - 1
           - Z.of_nat (length A1) + 1) with (Z.of_nat (length l)) by lia.
  replace (Z.of_nat (length A1) + Z.of_nat (length l) - 1
           + Z.of_nat (length r)
           - (Z.of_nat (length A1) + Z.of_nat (length l) - 1))
    with (Z.of_nat (length r)) by lia.
  pose proof (copy_loop_spec (r ++ A2)
    (λ j, Z.of_nat (length A1) + j) l A1 []
    (replicate (Z.to_nat (Z.of_nat (length l) + 1)) zero) 0) as HL.
  cbv beta in HL. cbn [app] in HL.
  rewrite Z.add_0_l in HL. rewrite HL; clear HL;
    [|done|intros; lia|rewrite length_replicate; lia]. ok.
  pose proof (copy_loop_spec A2
    (λ j, Z.of_nat (length A1) + Z.of_nat (length l) - 1 + j + 1)
    r (A1 ++ l) []
    (replicate (Z.to_nat (Z.of_nat (length r) + 1)) zero) 0) as HR.
  cbv beta in HR. cbn [app] in HR. rewrite <- (assoc_L (++)) in HR.
  rewrite Z.add_0_l in HR. rewrite HR; clear HR;
    [|done|intros; rewrite length_app; lia|rewrite length_replicate; lia]. ok.
  replace (Z.to_nat (Z.of_nat (length l) + 1)) with (length l + 1)%nat by lia.
  replace (Z.to_nat (Z.of_nat (length r) + 1)) with (length r + 1)%nat by lia.
  rewrite !drop_replicate.
  replace (length l + 1 - length l)%nat with 1%nat by lia.
  replace (length r + 1 - length r)%nat with 1%nat by lia.
  simpl replicate.
  rewrite (setitem_middle l zero []) by done. ok.
  rewrite (setitem_middle r zero []) by done. ok. done.
Qed.

(** One round of the last loop, when the left number is taken. *)
Lemma merge_body_left (Ld Lt Rd Rt A1 A2 : list val) x y m (k i j : Z) :
  le_val x y = true →
  k = Z.of_nat (length A1) →
  i = Z.of_nat (length Ld) →
  j = Z.of_nat (length Rd) →
  merge_body (Ld ++ x :: Lt) (Rd ++ y :: Rt) k (A1 ++ m :: A2, i, j)
  = Ok (A1 ++ x :: A2, i + 1, j).
Proof.
  intros Hle -> -> ->. unfold merge_body. cbv beta iota.
  rewrite !getitem_middle by done. ok. rewrite Hle. ok.
  rewrite setitem_middle by done. done.
Qed.

(** One round of the last loop, when the right number is taken. *)
Lemma merge_body_right (Ld Lt Rd Rt A1 A2 : list val) x y m (k i j : Z) :
  le_val x y = false →
  k = Z.of_nat (length A1) →
  i = Z.of_nat (length Ld) →
  j = Z.of_nat (length Rd) →
  merge_body (Ld ++ x :: Lt) (Rd ++ y :: Rt) k (A1 ++ m :: A2, i, j)
  = Ok (A1 ++ y :: A2, i, j + 1).
Proof.
  intros Hle -> -> ->. unfold merge_body. cbv beta iota.
  rewrite !getitem_middle by done. ok. rewrite Hle. ok.
  rewrite setitem_middle by done. done.
Qed.

Lemma merge_state_eq (A A' : list val) (i i' j j' : Z) :
  A = A' → i = i' → j = j' →
  @Ok (list val * Z * Z) (A, i, j) = Ok (A', i', j').
Proof. by intros -> -> ->. Qed.

(** The last loop writes the merge of what is left of the two runs. *)
Lemma merge_loop_spec (n : nat) :
  ∀ (l r Ld Rd A1 mid A2 : list val) (k i j : Z),
    (length l + length r)%nat = n →
    length mid = n →
    Forall is_int r →
    k = Z.of_nat (length A1) →
    i = Z.of_nat (length Ld) →
    j = Z.of_nat (length Rd) →
    for_each (range k (k + Z.of_nat n))
      (merge_body (Ld ++ l ++ [PyInf]) (Rd ++ r ++ [PyInf]))
      (A1 ++ mid ++ A2, i, j)
    = Ok (A1 ++ list_merge val_le l r ++ A2,
          i + Z.of_nat (length l), j + Z.of_nat (length r)).
Proof.
  induction n as [|n IH]; intros l r Ld Rd A1 mid A2 k i j Hn Hmid Hint Hk Hi Hj.
  - destruct l, r, mid; try done. rewrite range_nil by lia.
    apply merge_state_eq; simpl; [done|lia|lia].
  - destruct mid as [|m mid]; [done|]. simpl in Hmid.
    rewrite range_cons by lia. cbn [for_each].
    replace (k + Z.of_nat (S n)) with (k + 1 + Z.of_nat n) by lia.
    destruct l as [|x l], r as [|y r]; [done| | |].
    + (* left run exhausted: the sentinel loses against a number *)
      apply Forall_cons in Hint as [Hy Hint].
      cbn [app]. rewrite (merge_body_right Ld [] Rd) by (by destruct y).
      ok. specialize (IH [] r Ld (Rd ++ [y]) (A1 ++ [y]) mid A2).
      rewrite <- !(assoc_L (++)) in IH. simpl in IH. rewrite IH.
      * rewrite list_merge_nil_l.
        apply merge_state_eq; simpl length; [done|lia|lia].
      * simpl in Hn. lia.
      * lia.
      * done.
      * rewrite length_app. simpl. lia.
      * done.
      * rewrite length_app. simpl. lia.
    + (* right run exhausted: every number wins against the sentinel *)
      cbn [app]. rewrite (merge_body_left Ld (l ++ [PyInf]) Rd [])
        by (done || by destruct x).
      ok. specialize (IH l [] (Ld ++ [x]) Rd (A1 ++ [x]) mid A2).
      rewrite <- !(assoc_L (++)) in IH. simpl in IH. rewrite IH.
      * rewrite list_merge_nil_r.
        apply merge_state_eq; simpl length; [done|lia|lia].
      * simpl in Hn |- *. lia.
      * lia.
      * done.
      * rewrite length_app. simpl. lia.
      * rewrite length_app. simpl. lia.
      * done.
    + rewrite list_merge_cons. cbn [app].
      destruct (le_val x y) eqn:Hle.
      * rewrite decide_True by done.
        rewrite (merge_body_left Ld (l ++ [PyInf]) Rd (r ++ [PyInf])) by done.
        ok. specialize (IH l (y :: r) (Ld ++ [x]) Rd (A1 ++ [x]) mid A2).
        rewrite <- !(assoc_L (++)) in IH. simpl in IH. rewrite IH.
        -- apply merge_state_eq; simpl length; [done|lia|lia].
        -- simpl in Hn |- *. lia.
        -- lia.
        -- done.
        -- rewrite length_app. simpl. lia.
        -- rewrite length_app. simpl. lia.
        -- done.
      * rewrite decide_False by (unfold val_le; congruence).
        apply Forall_cons in Hint as [Hy Hint].
        rewrite (merge_body_right Ld (l ++ [PyInf]) Rd (r ++ [PyInf])) by done.
        ok. specialize (IH (x :: l) r Ld (Rd ++ [y]) (A1 ++ [y]) mid A2).
        rewrite <- !(assoc_L (++)) in IH. simpl in IH. rewrite IH.
        -- apply merge_state_eq; simpl length; [done|lia|lia].
        -- simpl in Hn |- *. lia.
        -- lia.
        -- done.
        -- rewrite length_app. simpl. lia.
        -- done.
        -- rewrite length_app. simpl. lia.
Qed.

(** [merge] replaces two adjacent runs by their merge, whatever their
    order, provided the right run holds numbers only. *)
Lemma merge_spec (A1 l r A2 : list val) (p q rr : Z) :
  Forall is_int r →
  p = Z.of_nat (length A1) →
  q = p + Z.of_nat (length l) - 1 →
  rr = q + Z.of_nat (length r) →
  merge (A1 ++ l ++ r ++ A2) p q rr = Ok (A1 ++ list_merge val_le l r ++ A2).
Proof.
  intros Hint Hp Hq Hr. unfold merge.
  rewrite (merge_split_spec A1 l r A2 p q rr) by done. ok.
  replace (rr + 1) with (p + Z.of_nat (length l + length r)) by lia.
  rewrite (assoc_L (++) l r A2).
  pose proof (merge_loop_spec (length l + length r)
    l r [] [] A1 (l ++ r) A2 p 0 0) as Hloop.
  cbn [app] in Hloop. rewrite Hloop; [done|done| |done|done|done|done].
  by rewrite length_app.
Qed.

(** The call of the notebook. *)
Example merge_notebook_example :
  merge (ints [1; 2; 3; 4; 2; 3; 4; 5]) 0 3 7
  = Ok (ints [1; 2; 2; 3; 3; 4; 4; 5]).
Proof. vm_compute. reflexivity. Qed.

(** *** Blocks of a list *)

Lemma sub_length (A : list val) (p r : Z) :
  0 ≤ p → p ≤ r + 1 → r < Z.of_nat (length A) →
  length (sub A p r) = Z.to_nat (r - p + 1).
Proof.
  intros Hp Hpr Hr. unfold sub.
  rewrite length_take_le; [done|]. rewrite length_drop. lia.
Qed.

Lemma sub_app (A : list val) (p q r : Z) :
  0 ≤ p → p ≤ q + 1 → q ≤ r →
  sub A p q ++ sub A (q + 1) r = sub A p r.
Proof.
  intros Hp Hpq Hqr. unfold sub.
  replace (Z.to_nat (q + 1)) with (Z.to_nat p + Z.to_nat (q - p + 1))%nat
    by lia.
  rewrite <- drop_drop, take_take_drop. f_equal. lia.
Qed.

Lemma sub_frame (A : list val) (p r : Z) :
  0 ≤ p → p ≤ r + 1 →
  A = take (Z.to_nat p) A ++ sub A p r ++ drop (Z.to_nat (r + 1)) A.
Proof.
  intros Hp Hpr. unfold sub.
  replace (Z.to_nat (r + 1)) with (Z.to_nat p + Z.to_nat (r - p + 1))%nat
    by lia.
  by rewrite <- drop_drop, !take_drop.
Qed.

Lemma sub_of_frame (A1 mid A2 : list val) (p r : Z) :
  p = Z.of_nat (length A1) →
  r = p + Z.of_nat (length mid) - 1 →
  sub (A1 ++ mid ++ A2) p r = mid.
Proof.
  intros -> ->. unfold sub.
  rewrite Nat2Z.id, drop_app_length.
  replace (Z.to_nat _) with (length mid) by lia.
  by rewrite take_app_length.
Qed.

(** *** Stability of the merge *)

(** A comparison only looks at the value of its arguments. *)
Lemma le_val_value x a b : value a = value b → le_val x a = le_val x b.
Proof. destruct x, a, b; simpl; intros; simplify_eq; done. Qed.

(** The numbers equal to [n] come out of a merge in the order: those of the
    left run, then those of the right run. *)
Lemma list_merge_stable (n : Z) (l : list val) :
  ∀ r : list val,
    StronglySorted val_le l →
    filter (λ v, value v = Some n) (list_merge val_le l r)
    = filter (λ v, value v = Some n) l ++ filter (λ v, value v = Some n) r.
Proof.
  induction l as [|x l IHl]; intros r Hl.
  - by rewrite list_merge_nil_l.
  - induction r as [|y r IHr].
    + by rewrite list_merge_nil_r, filter_nil, (right_id_L [] (++)).
    + rewrite list_merge_cons. destruct (decide (val_le x y)) as [Hxy|Hxy].
      * rewrite !(filter_cons _ x), IHl
          by (by apply StronglySorted_cons in Hl as [_ ?]).
        by destruct (decide (value x = Some n)).
      * rewrite !(filter_cons _ y), IHr.
        destruct (decide (value y = Some n)) as [Hy|Hy]; [|done].
        assert (filter (λ v, value v = Some n) (x :: l) = []) as ->; [|done].
        apply StronglySorted_cons in Hl as [Hxl _].
        assert (Forall (val_le x) (x :: l)) as Hall by (by constructor).
        clear -Hall Hxy Hy. induction Hall as [|z l' Hxz _ IH]; [done|].
        rewrite filter_cons_False; [done|]. intros Hz. apply Hxy.
        unfold val_le in *. rewrite <- Hxz. apply le_val_value. congruence.
Qed.

(** C1. When [A[p..q]] and [A[q+1..r]] are sorted, [merge(A, p, q, r)]
    returns [A] with [A[p..r]] sorted, the rest of the list untouched, and
    the merge is stable: among equal numbers those of the left run come
    first, in their order, then those of the right run. *)
Theorem merge_correct (A : list val) (p q r : Z) :
  Forall is_int A →
  0 ≤ p ≤ q → q < r < Z.of_nat (length A) →
  Sorted val_le (sub A p q) →
  Sorted val_le (sub A (q + 1) r) →
  ∃ A',
    merge A p q r = Ok A' ∧
    length A' = length A ∧
    take (Z.to_nat p) A' = take (Z.to_nat p) A ∧
    drop (Z.to_nat (r + 1)) A' = drop (Z.to_nat (r + 1)) A ∧
    Sorted val_le (sub A' p r) ∧
    sub A' p r ≡ₚ sub A p r ∧
    ∀ n : Z,
      filter (λ v, value v = Some n) (sub A' p r)
      = filter (λ v, value v = Some n) (sub A p q)
        ++ filter (λ v, value v = Some n) (sub A (q + 1) r).
Proof.
  intros Hint Hpq Hqr Hl Hr.
  pose proof (sub_frame A p r ltac:(lia) ltac:(lia)) as HA.
  rewrite <- (sub_app A p q r), <- (assoc_L (++)) in HA by lia.
  pose proof (sub_length A p q) as Hlenl.
  pose proof (sub_length A (q + 1) r) as Hlenr.
  set (A1 := take (Z.to_nat p) A) in *.
  set (A2 := drop (Z.to_nat (r + 1)) A) in *.
  set (l := sub A p q) in *. set (rr := sub A (q + 1) r) in *.
  assert (length A1 = Z.to_nat p) as HlenA1.
  { unfold A1. rewrite length_take_le; lia. }
  assert (Forall is_int rr) as Hintr.
  { rewrite HA in Hint.
    by apply Forall_app in Hint as [_ [_ [? _]%Forall_app]%Forall_app]. }
  exists (A1 ++ list_merge val_le l rr ++ A2).
  assert (length (list_merge val_le l rr) = length (l ++ rr)) as Hlenm.
  { by rewrite merge_Permutation. }
  assert (sub (A1 ++ list_merge val_le l rr ++ A2) p r
          = list_merge val_le l rr) as Hsub.
  { apply sub_of_frame; [lia|]. rewrite Hlenm, length_app. lia. }
  rewrite Hsub. split_and!.
  - rewrite HA at 1. apply merge_spec; [done|lia..].
  - rewrite HA at 1. rewrite !length_app, Hlenm, length_app. lia.
  - rewrite <- HlenA1. by rewrite take_app_length.
  - rewrite (assoc_L (++)).
    replace (Z.to_nat (r + 1)) with (length (A1 ++ list_merge val_le l rr)).
    + by rewrite drop_app_length.
    + rewrite length_app, Hlenm, length_app. lia.
  - by apply Sorted_list_merge; [apply _|..].
  - rewrite merge_Permutation. unfold l, rr. by rewrite sub_app by lia.
  - intros n. apply list_merge_stable. by apply Sorted_StronglySorted; [apply _|].
Qed.

(** *** The indices of the last loop of [merge] *)

Lemma range_snoc (lo : Z) (n : nat) :
  range lo (lo + Z.of_nat (S n)) = range lo (lo + Z.of_nat n) ++ [lo + Z.of_nat n].
Proof.
  unfold range.
  replace (lo + Z.of_nat (S n) - lo) with (Z.of_nat (S n)) by lia.
  replace (lo + Z.of_nat n - lo) with (Z.of_nat n) by lia.
  apply seqZ_S.
Qed.

(** One round keeps [i] and [j] inside [L] and [R]: a sentinel is never
    taken while the other run still has a number. *)
Lemma merge_body_bounds (l rr A : list val) (k i j : Z) :
  Forall is_int rr →
  0 ≤ i ≤ Z.of_nat (length l) →
  0 ≤ j ≤ Z.of_nat (length rr) →
  i + j < Z.of_nat (length l) + Z.of_nat (length rr) →
  0 ≤ k < Z.of_nat (length A) →
  ∃ A' i' j',
    merge_body (l ++ [PyInf]) (rr ++ [PyInf]) k (A, i, j) = Ok (A', i', j') ∧
    length A' = length A ∧
    0 ≤ i' ≤ Z.of_nat (length l) ∧
    0 ≤ j' ≤ Z.of_nat (length rr) ∧
    i' + j' = i + j + 1.
Proof.
  intros Hint Hi Hj Hij Hk.
  destruct (lookup_lt_is_Some_2 (l ++ [PyInf]) (Z.to_nat i)) as [x Hx].
  { rewrite length_app. simpl. lia. }
  destruct (lookup_lt_is_Some_2 (rr ++ [PyInf]) (Z.to_nat j)) as [y Hy].
  { rewrite length_app. simpl. lia. }
  destruct (lookup_lt_is_Some_2 A (Z.to_nat k)) as [m Hm]; [lia|].
  assert (length (take (Z.to_nat i) (l ++ [PyInf])) = Z.to_nat i) as Hli.
  { apply length_take_le. rewrite length_app. simpl. lia. }
  assert (length (take (Z.to_nat j) (rr ++ [PyInf])) = Z.to_nat j) as Hlj.
  { apply length_take_le. rewrite length_app. simpl. lia. }
  assert (length (take (Z.to_nat k) A) = Z.to_nat k) as Hlk.
  { apply length_take_le. lia. }
  destruct (le_val x y) eqn:Hle.
  - pose proof (merge_body_left
      (take (Z.to_nat i) (l ++ [PyInf])) (drop (S (Z.to_nat i)) (l ++ [PyInf]))
      (take (Z.to_nat j) (rr ++ [PyInf])) (drop (S (Z.to_nat j)) (rr ++ [PyInf]))
      (take (Z.to_nat k) A) (drop (S (Z.to_nat k)) A) x y m k i j Hle
      ltac:(rewrite Hlk; lia) ltac:(rewrite Hli; lia) ltac:(rewrite Hlj; lia))
      as Hrun.
    rewrite !take_drop_middle in Hrun by done.
    eexists _, _, _. split; [exact Hrun|].
    split_and!; try lia.
    + rewrite length_app. simpl. rewrite Hlk, length_drop.
      apply lookup_lt_Some in Hm. lia.
    + (* [L[i]] is not the sentinel, as [R[j]] would be a number *)
      destruct (decide (i = Z.of_nat (length l))) as [->|]; [|lia].
      rewrite Nat2Z.id, list_lookup_middle in Hx by done.
      injection Hx as <-.
      rewrite lookup_app_l in Hy by lia.
      apply (Forall_lookup_1 _ _ _ _ Hint) in Hy. by destruct y.
  - pose proof (merge_body_right
      (take (Z.to_nat i) (l ++ [PyInf])) (drop (S (Z.to_nat i)) (l ++ [PyInf]))
      (take (Z.to_nat j) (rr ++ [PyInf])) (drop (S (Z.to_nat j)) (rr ++ [PyInf]))
      (take (Z.to_nat k) A) (drop (S (Z.to_nat k)) A) x y m k i j Hle
      ltac:(rewrite Hlk; lia) ltac:(rewrite Hli; lia) ltac:(rewrite Hlj; lia))
      as Hrun.
    rewrite !take_drop_middle in Hrun by done.
    eexists _, _, _. split; [exact Hrun|].
    split_and!; try lia.
    + rewrite length_app. simpl. rewrite Hlk, length_drop.
      apply lookup_lt_Some in Hm. lia.
    + (* [R[j]] is not the sentinel, which loses against nothing *)
      destruct (decide (j = Z.of_nat (length rr))) as [->|]; [|lia].
      rewrite Nat2Z.id, list_lookup_middle in Hy by done.
      injection Hy as <-. by destruct x.
Qed.

(** The state of the last loop after its first [t] rounds. *)
Lemma merge_loop_bounds (l rr A : list val) (p : Z) (t : nat) :
  Forall is_int rr →
  0 ≤ p →
  (t ≤ length l + length rr)%nat →
  p + Z.of_nat (length l + length rr) ≤ Z.of_nat (length A) →
  ∃ A' i j,
    for_each (range p (p + Z.of_nat t))
      (merge_body (l ++ [PyInf]) (rr ++ [PyInf])) (A, 0, 0)
    = Ok (A', i, j) ∧
    length A' = length A ∧
    0 ≤ i ≤ Z.of_nat (length l) ∧
    0 ≤ j ≤ Z.of_nat (length rr) ∧
    i + j = Z.of_nat t.
Proof.
  intros Hint Hp Ht Hlen. induction t as [|t IH].
  - exists A, 0, 0. rewrite range_nil by lia. split_and!; done || lia.
  - destruct IH as (A' & i & j & Hrun & HlenA & Hi & Hj & Hij); [lia|].
    destruct (merge_body_bounds l rr A' (p + Z.of_nat t) i j)
      as (A'' & i' & j' & Hstep & HlenA' & Hi' & Hj' & Hij'); [done|lia..|].
    exists A'', i', j'.
    rewrite range_snoc, for_each_app, Hrun. ok. cbn [for_each].
    rewrite Hstep. ok. split_and!; done || lia.
Qed.

(** C8. In [merge(A, p, q, r)] with [p ≤ q < r] inside a list of integers,
    [L] and [R] have [n1 + 1] and [n2 + 1] places and, at the start of each
    of the [r - p + 1] rounds of the last loop as well as after the last
    one, [i ≤ n1] and [j ≤ n2]: [L[i]] and [R[j]] are read inside the
    lists. *)
Theorem merge_indices_in_bounds (A : list val) (p q r : Z) :
  Forall is_int A →
  0 ≤ p ≤ q → q < r < Z.of_nat (length A) →
  let n1 := q - p + 1 in
  let n2 := r - q in
  ∃ L R,
    merge_split A p q r = Ok (L, R) ∧
    Z.of_nat (length L) = n1 + 1 ∧
    Z.of_nat (length R) = n2 + 1 ∧
    ∀ t : Z, 0 ≤ t ≤ r - p + 1 →
      ∃ A' i j x y,
        for_each (range p (p + t)) (merge_body L R) (A, 0, 0) = Ok (A', i, j) ∧
        0 ≤ i ≤ n1 ∧ 0 ≤ j ≤ n2 ∧
        getitem L i = Ok x ∧ getitem R j = Ok y.
Proof.
  intros Hint Hpq Hqr n1 n2.
  pose proof (sub_frame A p r ltac:(lia) ltac:(lia)) as HA.
  rewrite <- (sub_app A p q r), <- (assoc_L (++)) in HA by lia.
  pose proof (sub_length A p q ltac:(lia) ltac:(lia) ltac:(lia)) as Hlenl.
  pose proof (sub_length A (q + 1) r ltac:(lia) ltac:(lia) ltac:(lia)) as Hlenr.
  assert (length (take (Z.to_nat p) A) = Z.to_nat p) as HlenA1.
  { rewrite length_take_le; lia. }
  assert (Forall is_int (sub A (q + 1) r)) as Hintr.
  { rewrite HA in Hint.
    by apply Forall_app in Hint as [_ [_ [? _]%Forall_app]%Forall_app]. }
  exists (sub A p q ++ [PyInf]), (sub A (q + 1) r ++ [PyInf]). split_and!.
  - rewrite HA at 1. apply merge_split_spec; lia.
  - rewrite length_app. simpl. lia.
  - rewrite length_app. simpl. lia.
  - intros t Ht.
    destruct (merge_loop_bounds (sub A p q) (sub A (q + 1) r) A p (Z.to_nat t))
      as (A' & i & j & Hrun & _ & Hi & Hj & _); [done|lia|lia|lia|].
    rewrite Z2Nat.id in Hrun by lia.
    destruct (lookup_lt_is_Some_2 (sub A p q ++ [PyInf]) (Z.to_nat i))
      as [x Hx]; [rewrite length_app; simpl; lia|].
    destruct (lookup_lt_is_Some_2 (sub A (q + 1) r ++ [PyInf]) (Z.to_nat j))
      as [y Hy]; [rewrite length_app; simpl; lia|].
    exists A', i, j, x, y. split_and!; [done|lia..| |].
    + rewrite <- (Z2Nat.id i) by lia. by apply getitem_lookup.
    + rewrite <- (Z2Nat.id j) by lia. by apply getitem_lookup.
Qed.

(** ** [merge_sort] *)

(** The depth bound plays no role once it exceeds [r - p]. *)
Lemma merge_sort_rec_fuel (n : nat) :
  ∀ (fuel : nat) (A : list val) (p r : Z),
    (Z.to_nat (r - p) ≤ n)%nat →
    (Z.to_nat (r - p) < fuel)%nat →
    merge_sort_rec fuel A p r = merge_sort A p r.
Proof.
  induction n as [|n IH]; intros fuel A p r Hn Hfuel;
    (destruct fuel as [|fuel]; [lia|]); unfold merge_sort;
    cbn [merge_sort_rec]; case_bool_decide as Hpr; try done; [lia|].
  cbv zeta.
  assert (p ≤ (p + r) `div` 2 < r) as Hq.
  { split; [apply Z.div_le_lower_bound; lia|apply Z.div_lt_upper_bound; lia]. }
  rewrite !(IH _ A p ((p + r) `div` 2)) by lia.
  destruct (merge_sort A p ((p + r) `div` 2)) as [[A' ?]| |]; [|done..]. ok.
  rewrite !(IH _ A' ((p + r) `div` 2 + 1) r) by lia. done.
Qed.

(** [merge_sort] satisfies the equation the source is written as. *)
Lemma merge_sort_unfold (A : list val) (p r : Z) :
  merge_sort A p r =
  if bool_decide (p < r) then
    let q := (p + r) `div` 2 in
    '(A, _) ← merge_sort A p q;
    '(A, _) ← merge_sort A (q + 1) r;
    A ← merge A p q r;
    Ok (A, RetList)
  else Ok (A, RetNone).
Proof.
  unfold merge_sort at 1. cbn [merge_sort_rec].
  case_bool_decide as Hpr; [|done]. cbv zeta.
  assert (p ≤ (p + r) `div` 2 < r) as Hq.
  { split; [apply Z.div_le_lower_bound; lia|apply Z.div_lt_upper_bound; lia]. }
  rewrite (merge_sort_rec_fuel (Z.to_nat (r - p)) _ A p) by lia.
  destruct (merge_sort A p ((p + r) `div` 2)) as [[A' ?]| |]; [|done..]. ok.
  by rewrite (merge_sort_rec_fuel (Z.to_nat (r - p)) _ A') by lia.
Qed.

(** Code without [while] loop or recursion needs no bound. *)
Lemma bind_total {X Y} (m : result X) (k : X → result Y) :
  m ≠ OutOfFuel → (∀ a, k a ≠ OutOfFuel) → m ≫= k ≠ OutOfFuel.
Proof. destruct m; simpl; auto. Qed.

Lemma getitem_total {X} (l : list X) (i : Z) : getitem l i ≠ OutOfFuel.
Proof. unfold getitem. by destruct (_ ≫= _). Qed.

Lemma setitem_total {X} (l : list X) (i : Z) (v : X) :
  setitem l i v ≠ OutOfFuel.
Proof. unfold setitem. by destruct (index _ _). Qed.

Lemma for_each_total {S} (ks : list Z) (body : Z → S → result S) (s : S) :
  (∀ k s, body k s ≠ OutOfFuel) → for_each ks body s ≠ OutOfFuel.
Proof.
  intros Hbody. revert s. induction ks as [|k ks IH]; intros s; [done|].
  cbn [for_each]. by apply bind_total.
Qed.

Lemma merge_total (A : list val) (p q r : Z) : merge A p q r ≠ OutOfFuel.
Proof.
  unfold merge, merge_split, merge_body. cbv zeta.
  repeat first
    [ done
    | apply getitem_total
    | apply setitem_total
    | apply bind_total
    | apply for_each_total
    | case_match
    | lazymatch goal with
      | |- _ ≠ _ => fail
      | |- ∀ _ : _ * _, _ => intros [? ?]
      | |- ∀ _, _ => intro
      end ].
Qed.

(** The recursion always ends: [merge_sort] returns or raises. *)
Lemma merge_sort_total (A : list val) (p r : Z) :
  merge_sort A p r ≠ OutOfFuel.
Proof.
  remember (Z.to_nat (r - p)) as n eqn:Hn.
  revert A p r Hn. induction n as [n IH] using lt_wf_ind; intros A p r ->.
  rewrite merge_sort_unfold. case_bool_decide as Hpr; [|done]. cbv zeta.
  assert (p ≤ (p + r) `div` 2 < r) as Hq.
  { split; [apply Z.div_le_lower_bound; lia|apply Z.div_lt_upper_bound; lia]. }
  pose proof (IH (Z.to_nat ((p + r) `div` 2 - p)) ltac:(lia) A p _ eq_refl).
  destruct (merge_sort A p ((p + r) `div` 2)) as [[A' ?]| |]; [|done..]. ok.
  pose proof (IH (Z.to_nat (r - ((p + r) `div` 2 + 1))) ltac:(lia) A' _ r eq_refl).
  destruct (merge_sort A' ((p + r) `div` 2 + 1) r) as [[A'' ?]| |]; [|done..].
  ok. apply bind_total; [apply merge_total|done].
Qed.

(** Merging two runs that are already in order leaves them as they are. *)
Lemma list_merge_sorted_app (l r : list val) :
  (∀ x y, x ∈ l → y ∈ r → val_le x y) →
  list_merge val_le l r = l ++ r.
Proof.
  revert r. induction l as [|x l IH]; intros r Hlr.
  - by rewrite list_merge_nil_l.
  - destruct r as [|y r].
    + by rewrite list_merge_nil_r, (right_id_L [] (++)).
    + rewrite list_merge_cons, decide_True by (apply Hlr; constructor).
      simpl. f_equal. apply IH. intros x' y' Hx' Hy'.
      apply Hlr; [by constructor|done].
Qed.

Lemma merge_sorted (A : list val) (p q r : Z) :
  Forall is_int A → Sorted val_le A →
  0 ≤ p ≤ q → q < r < Z.of_nat (length A) →
  merge A p q r = Ok A.
Proof.
  intros Hint Hs Hpq Hqr.
  pose proof (sub_frame A p r ltac:(lia) ltac:(lia)) as HA.
  rewrite <- (sub_app A p q r), <- (assoc_L (++)) in HA by lia.
  pose proof (sub_length A p q ltac:(lia) ltac:(lia) ltac:(lia)) as Hlenl.
  pose proof (sub_length A (q + 1) r ltac:(lia) ltac:(lia) ltac:(lia)) as Hlenr.
  assert (length (take (Z.to_nat p) A) = Z.to_nat p) as HlenA1.
  { rewrite length_take_le; lia. }
  apply Sorted_StronglySorted in Hs; [|apply _].
  rewrite HA in Hint, Hs.
  apply Forall_app in Hint as [_ [_ [Hintr _]%Forall_app]%Forall_app].
  apply StronglySorted_app_1_r in Hs.
  rewrite (assoc_L (++)) in Hs. apply StronglySorted_app_1_l in Hs.
  rewrite HA at 1. rewrite merge_spec; [|done|lia..].
  rewrite list_merge_sorted_app.
  - rewrite <- (assoc_L (++)). by rewrite <- HA.
  - intros x y. by apply StronglySorted_app_1_elem_of.
Qed.

(** On a sorted list [merge_sort] leaves the contents as they are; what it
    returns depends on whether the range has two places or more. *)
Lemma merge_sort_sorted_range (n : nat) :
  ∀ (A : list val) (p r : Z),
    Z.to_nat (r - p) = n →
    Forall is_int A → Sorted val_le A →
    0 ≤ p → r < Z.of_nat (length A) →
    merge_sort A p r = Ok (A, if bool_decide (p < r) then RetList else RetNone).
Proof.
  induction n as [n IH] using lt_wf_ind; intros A p r Hn Hint Hs Hp Hr.
  rewrite merge_sort_unfold. case_bool_decide as Hpr; [|done]. cbv zeta.
  assert (p ≤ (p + r) `div` 2 < r) as Hq.
  { split; [apply Z.div_le_lower_bound; lia|apply Z.div_lt_upper_bound; lia]. }
  rewrite (IH (Z.to_nat ((p + r) `div` 2 - p))) by (done || lia). ok.
  rewrite (IH (Z.to_nat (r - ((p + r) `div` 2 + 1)))) by (done || lia). ok.
  rewrite merge_sorted by (done || lia). done.
Qed.

Lemma merge_sort_sorted (A : list val) :
  Forall is_int A → Sorted val_le A →
  merge_sort A 0 (Z.of_nat (length A) - 1)
  = Ok (A, if bool_decide (2 ≤ length A)%nat then RetList else RetNone).
Proof.
  intros Hint Hs.
  rewrite (merge_sort_sorted_range _ A 0 _ eq_refl) by (done || lia).
  repeat case_bool_decide; done || lia.
Qed.

Lemma merge_correct_witness :
  ∃ A',
    merge merge_example 0 3 7 = Ok A' ∧
    length A' = length merge_example ∧
    take (Z.to_nat 0) A' = take (Z.to_nat 0) merge_example ∧
    drop (Z.to_nat (7 + 1)) A' = drop (Z.to_nat (7 + 1)) merge_example ∧
    Sorted val_le (sub A' 0 7) ∧
    sub A' 0 7 ≡ₚ sub merge_example 0 7 ∧
    ∀ n : Z,
      filter (λ v, value v = Some n) (sub A' 0 7)
      = filter (λ v, value v = Some n) (sub merge_example 0 3)
        ++ filter (λ v, value v = Some n) (sub merge_example (3 + 1) 7).
Proof.
  apply (merge_correct merge_example 0 3 7).
  - repeat constructor.
  - lia.
  - simpl. lia.
  - repeat constructor.
  - repeat constructor.
Defined.

Lemma merge_indices_in_bounds_witness :
  ∃ L R,
    merge_split merge_example 0 3 7 = Ok (L, R) ∧
    Z.of_nat (length L) = 3 - 0 + 1 + 1 ∧
    Z.of_nat (length R) = 7 - 3 + 1 ∧
    ∀ t : Z, 0 ≤ t ≤ 7 - 0 + 1 →
      ∃ A' i j x y,
        for_each (range 0 (0 + t)) (merge_body L R) (merge_example, 0, 0)
        = Ok (A', i, j) ∧
        0 ≤ i ≤ 3 - 0 + 1 ∧ 0 ≤ j ≤ 7 - 3 ∧
        getitem L i = Ok x ∧ getitem R j = Ok y.
Proof.
  apply (merge_indices_in_bounds merge_example 0 3 7).
  - repeat constructor.
  - lia.
  - simpl. lia.
Defined.

(** C4. [merge_sort] on [[10, 9, 8, 7, 6, 5, 4, 3, 2, 1]] returns
    [[1, 2, 3, 4, 5, 6, 7, 8, 9, 10]]. *)
Theorem merge_sort_example :
  let A := ints [10; 9; 8; 7; 6; 5; 4; 3; 2; 1] in
  merge_sort A 0 (Z.of_nat (length A) - 1)
  = Ok (ints [1; 2; 3; 4; 5; 6; 7; 8; 9; 10], RetList).
Proof. vm_compute. reflexivity. Qed.

(** C3. Sorting the sorted list [[5]]: the contents are unchanged, but the
    call returns [None] and not the list. *)
Theorem merge_sort_sorted_singleton :
  let A := ints [5] in
  Sorted val_le A ∧
  merge_sort A 0 (Z.of_nat (length A) - 1) = Ok (A, RetNone).
Proof. split; [repeat constructor|]. vm_compute. reflexivity. Qed.

(** C9. With [p ≥ r] the call [merge_sort(A, p, r)] leaves [A] as it is and
    returns [None], in particular [merge_sort(A, 0, len(A) - 1)] on a list
    of at most one element; the list is returned only when [p < r]. *)
Theorem merge_sort_returns_None (A : list val) (p r : Z) :
  (p >= r → merge_sort A p r = Ok (A, RetNone)) ∧
  ((length A ≤ 1)%nat →
   merge_sort A 0 (Z.of_nat (length A) - 1) = Ok (A, RetNone)) ∧
  (∀ A', merge_sort A p r = Ok (A', RetList) → p < r).
Proof.
  split_and!.
  - intros Hpr. rewrite merge_sort_unfold.
    by rewrite bool_decide_eq_false_2 by lia.
  - intros Hlen. rewrite merge_sort_unfold.
    by rewrite bool_decide_eq_false_2 by lia.
  - intros A' Hrun. rewrite merge_sort_unfold in Hrun.
    by case_bool_decide.
Qed.

Lemma merge_sort_returns_None_witness :
  merge_sort (ints [7; 3]) 1 1 = Ok (ints [7; 3], RetNone) ∧
  merge_sort (ints [7]) 0 (Z.of_nat (length (ints [7])) - 1)
  = Ok (ints [7], RetNone).
Proof.
  split.
  - apply (merge_sort_returns_None (ints [7; 3]) 1 1). lia.
  - apply (merge_sort_returns_None (ints [7]) 0 0). simpl. lia.
Defined.

(** ** [save_hyperparameters] *)

Section save_hyperparameters.
Implicit Types (self : gmap string pyval) (l : list (string * pyval)).

(** The [setattr] loop leaves the attributes it does not name alone. *)
Lemma setattr_loop_other self l (k : string) :
  k ∉ l.*1 →
  foldl (λ (self : gmap string pyval) kv, <[kv.1 := kv.2]> self) self l !! k
  = self !! k.
Proof.
  revert self. induction l as [|[k' v'] l IH]; intros self Hk; [done|].
  simpl in *. apply not_elem_of_cons in Hk as [Hne Hk].
  rewrite IH by done. by rewrite lookup_insert_ne.
Qed.

(** It binds each name of a dict to the value the dict gives it. *)
Lemma setattr_loop_lookup self l (k : string) (v : pyval) :
  NoDup l.*1 → (k, v) ∈ l →
  foldl (λ (self : gmap string pyval) kv, <[kv.1 := kv.2]> self) self l !! k
  = Some v.
Proof.
  revert self. induction l as [|[k' v'] l IH]; intros self Hnd Hin.
  - by apply elem_of_nil in Hin.
  - simpl in *. apply NoDup_cons in Hnd as [Hk' Hnd].
    apply elem_of_cons in Hin as [[= -> ->]|Hin].
    + rewrite setattr_loop_other by done. by rewrite lookup_insert_eq.
    + by apply IH.
Qed.
End save_hyperparameters.

(** The classes of the notebook are of that shape. *)
Lemma B___init___hyper self a b c :
  B___init__ self a b c
  = hyper___init__ ["c"] [("a", a); ("b", b); ("c", c)] self.
Proof. reflexivity. Qed.

Lemma DataModule___init___hyper self root num_workers :
  DataModule___init__ self root num_workers
  = hyper___init__ [] [("root", root); ("num_workers", num_workers)] self.
Proof. reflexivity. Qed.

(** [B(a=1, b=2, c=3)] has [a] and [b], and no [c], as the notebook
    prints. *)
Example B_example :
  ∃ inst,
    construct (λ self, B___init__ self (VInt 1) (VInt 2) (VInt 3)) = Ok inst ∧
    inst !! "a" = Some (VInt 1) ∧ inst !! "b" = Some (VInt 2) ∧
    inst !! "c" = None.
Proof. eexists. split; [reflexivity|]. split_and!; by vm_compute. Qed.

(** C6, as written, fails when [L] names [hparams]: with
    [def __init__(self, hparams, lr): self.save_hyperparameters(ignore=['hparams'])]
    the attribute [hparams] is set all the same, to the dict of the saved
    arguments. *)
Lemma ignored_names_unset_counterexample :
  ¬ ignored_names_unset ["hparams"] [("hparams", VInt 1); ("lr", VInt 2)].
Proof.
  intros Hclaim. specialize (Hclaim _ eq_refl "hparams").
  by specialize (Hclaim ltac:(by constructor)).
Qed.

(** C6, amended.  After the construction of an instance of a class whose
    [__init__] calls [save_hyperparameters(ignore=L)], every argument whose
    name is not in [L], is not [self] and does not start with an underscore
    is an attribute bound to the value passed; a name of [L] other than
    [hparams] is not an attribute; and [hparams] is an attribute in every
    case: bound to the dict of the saved arguments, unless an argument
    named [hparams] is itself saved (it is then bound to that argument, as
    the first part says). *)
Theorem save_hyperparameters_attributes (L : list string)
    (args : list (string * pyval)) :
  NoDup args.*1 → "self" ∉ args.*1 →
  ∃ inst : gmap string pyval,
    construct (hyper___init__ L args) = Ok inst ∧
    (∀ k v, (k, v) ∈ args → k ∉ L → k ≠ "self" → ¬ String.prefix "_" k →
            inst !! k = Some v) ∧
    (∀ k, k ∈ L → k ≠ "hparams" → inst !! k = None) ∧
    is_Some (inst !! "hparams") ∧
    ("hparams" ∈ L ∨ "hparams" ∉ args.*1 →
     inst !! "hparams"
     = Some (VDict (hparams_dict L (("self", VObj ∅) :: args)))).
Proof.
  intros Hnd Hself. eexists. split; [reflexivity|].
  unfold save_hyperparameters. cbv zeta.
  assert (NoDup (hparams_dict L (("self", VObj ∅) :: args)).*1) as Hnd'.
  { eapply sublist_NoDup; [|apply fmap_sublist, sublist_filter].
    simpl. by constructor. }
  assert (∀ k, k ∈ L → k ∉ (hparams_dict L (("self", VObj ∅) :: args)).*1)
    as Hignored.
  { intros k Hk [[k' v] [-> Hin]]%list_elem_of_fmap.
    apply list_elem_of_filter in Hin as [[Hin _] _]. simpl in Hin.
    apply Hin, elem_of_app. by left. }
  assert (∀ k, k ≠ "self" → k ∉ args.*1 →
               k ∉ (hparams_dict L (("self", VObj ∅) :: args)).*1)
    as Hforeign.
  { intros k Hkself Hk [[k' v] [-> Hin]]%list_elem_of_fmap.
    apply list_elem_of_filter in Hin as [_ Hin]. simpl in *.
    apply elem_of_cons in Hin as [[= ? _]|Hin]; [done|].
    apply Hk, list_elem_of_fmap. by exists (k', v). }
  split_and!.
  - intros k v Hin HkL Hkself Hk_.
    apply setattr_loop_lookup; [done|].
    apply list_elem_of_filter. split; [|by right]. simpl. split; [|done].
    intros [?|?%list_elem_of_singleton]%elem_of_app; done.
  - intros k Hk Hne. rewrite setattr_loop_other by auto.
    by rewrite lookup_insert_ne.
  - destruct (decide ("hparams"
                      ∈ (hparams_dict L (("self", VObj ∅) :: args)).*1))
      as [Hin|Hout].
    + apply list_elem_of_fmap in Hin as [[k v] [Hk Hin]]. simpl in Hk.
      subst k. exists v. by apply setattr_loop_lookup.
    + rewrite setattr_loop_other by done. by rewrite lookup_insert_eq.
  - intros Hk. rewrite setattr_loop_other.
    + by rewrite lookup_insert_eq.
    + destruct Hk as [Hk|Hk]; [by apply Hignored|by apply Hforeign].
Qed.

(** The class [B] of the notebook, with [ignore=['c']]: [hparams] is
    neither ignored nor an argument. *)
Lemma save_hyperparameters_attributes_witness :
  ∃ inst : gmap string pyval,
    construct (hyper___init__ ["c"]
                 [("a", VInt 1); ("b", VInt 2); ("c", VInt 3)]) = Ok inst ∧
    (∀ k v, (k, v) ∈ [("a", VInt 1); ("b", VInt 2); ("c", VInt 3)] →
            k ∉ ["c"] → k ≠ "self" → ¬ String.prefix "_" k →
            inst !! k = Some v) ∧
    (∀ k, k ∈ ["c"] → k ≠ "hparams" → inst !! k = None) ∧
    is_Some (inst !! "hparams") ∧
    ("hparams" ∈ ["c"]
     ∨ "hparams" ∉ [("a", VInt 1); ("b", VInt 2); ("c", VInt 3)].*1 →
     inst !! "hparams"
     = Some (VDict (hparams_dict ["c"]
                      (("self", VObj ∅)
                       :: [("a", VInt 1); ("b", VInt 2); ("c", VInt 3)])))).
Proof.
  apply (save_hyperparameters_attributes ["c"]
           [("a", VInt 1); ("b", VInt 2); ("c", VInt 3)]).
  - apply (bool_decide_unpack _). vm_compute. exact I.
  - apply (bool_decide_unpack _). vm_compute. exact I.
Defined.

(** ** The stubs *)

(** C5. Each stub of the class hierarchy raises [NotImplementedError],
    whatever it is called with. *)
Theorem stubs_raise_NotImplementedError
    (self : gmap string pyval) (y_hat y train : pyval) :
  Module_loss self y_hat y = Raise NotImplementedError ∧
  Module_configure_optimizers self = Raise NotImplementedError ∧
  DataModule_get_dataloader self train = Raise NotImplementedError ∧
  Trainer_fit_epoch self = Raise NotImplementedError.
Proof. by split_and!. Qed.

(** The two loaders of a [DataModule] that does not override
    [get_dataloader] raise with it. *)
Lemma DataModule_loaders_raise (self : gmap string pyval) :
  DataModule_train_dataloader self = Raise NotImplementedError ∧
  DataModule_val_dataloader self = Raise NotImplementedError.
Proof. by split. Qed.

(** ** The constructor of [Module] *)

(** C10. [Module.__init__] raises at [super.__init__()], before any
    attribute is set, whatever the instance and the arguments: no call
    [Module(...)] returns an instance. *)
Theorem Module_constructor_raises
    (self : gmap string pyval)
    (plot_train_per_epoch plot_valid_per_epoch : pyval) :
  Module___init__ self plot_train_per_epoch plot_valid_per_epoch
  = Raise TypeError ∧
  Module_new plot_train_per_epoch plot_valid_per_epoch = Raise TypeError ∧
  ∀ inst, Module_new plot_train_per_epoch plot_valid_per_epoch ≠ Ok inst.
Proof. by split_and!. Qed.

(** * Further properties of the sorting functions *)

(** ** [merge_sort] sorts *)

Lemma stable_sort_of_short (l : list val) :
  (length l ≤ 1)%nat → stable_sort_of l l.
Proof.
  intros Hlen. split_and!; [|done..].
  destruct l as [|x [|y l]]; [constructor|repeat constructor|simpl in Hlen; lia].
Qed.

(** Merging two stably sorted halves sorts the whole stably. *)
Lemma stable_sort_of_merge (l rr l' rr' : list val) :
  stable_sort_of l l' → stable_sort_of rr rr' →
  stable_sort_of (l ++ rr) (list_merge val_le l' rr').
Proof.
  intros (Hsl & Hpl & Hfl) (Hsr & Hpr & Hfr). split_and!.
  - by apply Sorted_list_merge; [apply _|..].
  - by rewrite merge_Permutation, Hpl, Hpr.
  - intros n. rewrite list_merge_stable
      by (by apply Sorted_StronglySorted; [apply _|]).
    by rewrite filter_app, Hfl, Hfr.
Qed.

(** [merge_sort(A, p, r)] on a block [mid] of numbers that sits at
    [A[p..r]]. *)
Lemma merge_sort_block (n : nat) :
  ∀ (A1 mid A2 : list val) (p r : Z),
    length mid = n →
    Forall is_int mid →
    p = Z.of_nat (length A1) →
    r = p + Z.of_nat (length mid) - 1 →
    ∃ mid',
      merge_sort (A1 ++ mid ++ A2) p r
      = Ok (A1 ++ mid' ++ A2, if bool_decide (p < r) then RetList else RetNone) ∧
      stable_sort_of mid mid'.
Proof.
  induction n as [n IH] using lt_wf_ind; intros A1 mid A2 p r Hn Hint Hp Hr.
  rewrite merge_sort_unfold. case_bool_decide as Hpr.
  - cbv zeta.
    assert (p ≤ (p + r) `div` 2 < r) as Hq.
    { split; [apply Z.div_le_lower_bound; lia|apply Z.div_lt_upper_bound; lia]. }
    set (q := (p + r) `div` 2) in *.
    set (l := take (Z.to_nat (q - p + 1)) mid).
    set (rr := drop (Z.to_nat (q - p + 1)) mid).
    assert (mid = l ++ rr) as Hmid by (symmetry; apply take_drop).
    assert (length l = Z.to_nat (q - p + 1)) as Hlenl.
    { unfold l. rewrite length_take_le; lia. }
    assert (length rr = Z.to_nat (r - q)) as Hlenr.
    { unfold rr. rewrite length_drop. lia. }
    rewrite Hmid in Hint. apply Forall_app in Hint as [Hintl Hintr].
    destruct (IH (length l) ltac:(lia) A1 l (rr ++ A2) p q eq_refl Hintl)
      as (l' & Hrunl & Hl'); [lia..|].
    assert (length l' = length l) as Hlenl'.
    { destruct Hl' as (_ & Hperm & _). by rewrite Hperm. }
    destruct (IH (length rr) ltac:(lia) (A1 ++ l') rr A2 (q + 1) r eq_refl Hintr)
      as (rr' & Hrunr & Hr'); [rewrite length_app; lia|lia|].
    assert (length rr' = length rr ∧ Forall is_int rr') as [Hlenr' Hintr'].
    { destruct Hr' as (_ & Hperm & _). by rewrite Hperm. }
    exists (list_merge val_le l' rr').
    split; [|rewrite Hmid; by apply stable_sort_of_merge].
    rewrite Hmid, <- (assoc_L (++) l rr A2), Hrunl. ok.
    rewrite (assoc_L (++) A1 l'), Hrunr. ok.
    rewrite <- (assoc_L (++) A1 l').
    rewrite (merge_spec A1 l' rr' A2 p q r) by (done || lia). done.
  - exists mid. split; [done|]. apply stable_sort_of_short. lia.
Qed.

(** The same on the list as a whole. *)
Lemma merge_sort_run (A : list val) (p r : Z) :
  Forall is_int A →
  0 ≤ p → r < Z.of_nat (length A) →
  ∃ A',
    merge_sort A p r
    = Ok (A', if bool_decide (p < r) then RetList else RetNone) ∧
    length A' = length A ∧
    take (Z.to_nat p) A' = take (Z.to_nat p) A ∧
    drop (Z.to_nat (r + 1)) A' = drop (Z.to_nat (r + 1)) A ∧
    stable_sort_of (sub A p r) (sub A' p r).
Proof.
  intros Hint Hp Hr. destruct (decide (p < r)) as [Hpr|Hpr].
  - pose proof (sub_frame A p r ltac:(lia) ltac:(lia)) as HA.
    pose proof (sub_length A p r ltac:(lia) ltac:(lia) ltac:(lia)) as Hlen.
    assert (length (take (Z.to_nat p) A) = Z.to_nat p) as HlenA1.
    { rewrite length_take_le; lia. }
    assert (Forall is_int (sub A p r)) as Hmid.
    { rewrite HA in Hint. by apply Forall_app in Hint as [_ [? _]%Forall_app]. }
    destruct (merge_sort_block _ (take (Z.to_nat p) A) (sub A p r)
                (drop (Z.to_nat (r + 1)) A) p r eq_refl Hmid)
      as (mid' & Hrun & Hstable); [lia..|].
    rewrite <- HA in Hrun.
    assert (length mid' = length (sub A p r)) as Hlen'.
    { destruct Hstable as (_ & Hperm & _). by rewrite Hperm. }
    eexists. split; [exact Hrun|].
    rewrite (sub_of_frame _ mid') by lia. split_and!; [|..|done].
    + rewrite !length_app, length_drop. lia.
    + rewrite <- HlenA1 at 1. by rewrite take_app_length.
    + rewrite (assoc_L (++)).
      replace (Z.to_nat (r + 1)) with (length (take (Z.to_nat p) A ++ mid'))
        at 1 by (rewrite length_app; lia).
      by rewrite drop_app_length.
  - exists A. rewrite merge_sort_unfold.
    rewrite bool_decide_eq_false_2 by done.
    split_and!; [done..|].
    apply stable_sort_of_short. unfold sub. rewrite length_take. lia.
Qed.

(** X1. On a list of integers, [merge_sort(A, p, r)] with [0 ≤ p] and
    [r < len(A)] always returns, leaves [A[p..r]] in non-decreasing order
    with the numbers it held, and leaves the rest of the list as it was. *)
Theorem merge_sort_sorts (A : list val) (p r : Z) :
  Forall is_int A →
  0 ≤ p → r < Z.of_nat (length A) →
  ∃ A',
    merge_sort A p r
    = Ok (A', if bool_decide (p < r) then RetList else RetNone) ∧
    length A' = length A ∧
    take (Z.to_nat p) A' = take (Z.to_nat p) A ∧
    drop (Z.to_nat (r + 1)) A' = drop (Z.to_nat (r + 1)) A ∧
    Sorted val_le (sub A' p r) ∧
    sub A' p r ≡ₚ sub A p r.
Proof.
  intros Hint Hp Hr.
  destruct (merge_sort_run A p r Hint Hp Hr)
    as (A' & Hrun & Hlen & Htake & Hdrop & Hs & Hperm & _).
  by exists A'.
Qed.

Lemma merge_sort_sorts_witness :
  ∃ A',
    merge_sort merge_example 2 6
    = Ok (A', if bool_decide (2 < 6) then RetList else RetNone) ∧
    length A' = length merge_example ∧
    take (Z.to_nat 2) A' = take (Z.to_nat 2) merge_example ∧
    drop (Z.to_nat (6 + 1)) A' = drop (Z.to_nat (6 + 1)) merge_example ∧
    Sorted val_le (sub A' 2 6) ∧
    sub A' 2 6 ≡ₚ sub merge_example 2 6.
Proof.
  apply (merge_sort_sorts merge_example 2 6).
  - repeat constructor.
  - lia.
  - simpl. lia.
Defined.

(** X2. [merge_sort] is stable: the numbers of each value are, in
    [A[p..r]] after the call, in the order they had before it. *)
Theorem merge_sort_stable (A : list val) (p r : Z) :
  Forall is_int A →
  0 ≤ p → r < Z.of_nat (length A) →
  ∃ A' ret,
    merge_sort A p r = Ok (A', ret) ∧
    ∀ n : Z,
      filter (λ v, value v = Some n) (sub A' p r)
      = filter (λ v, value v = Some n) (sub A p r).
Proof.
  intros Hint Hp Hr.
  destruct (merge_sort_run A p r Hint Hp Hr)
    as (A' & Hrun & _ & _ & _ & _ & _ & Hstable).
  by eexists A', _.
Qed.

(** [[3, 1, 3, 1]] with four distinct objects. *)
Lemma merge_sort_stable_witness :
  ∃ A' ret,
    merge_sort [PyInt 3 0; PyInt 1 1; PyInt 3 2; PyInt 1 3] 0 3
    = Ok (A', ret) ∧
    ∀ n : Z,
      filter (λ v, value v = Some n) (sub A' 0 3)
      = filter (λ v, value v = Some n)
          (sub [PyInt 3 0; PyInt 1 1; PyInt 3 2; PyInt 1 3] 0 3).
Proof.
  apply (merge_sort_stable [PyInt 3 0; PyInt 1 1; PyInt 3 2; PyInt 1 3] 0 3).
  - repeat constructor.
  - lia.
  - simpl. lia.
Defined.

(** ** [insertion_sort]: stability and sorted input *)

Lemma gt_val_value a key : gt_val a key = true → value a ≠ value key.
Proof.
  destruct a, key; simpl; try done.
  rewrite bool_decide_eq_true. intros ? [= ?]. lia.
Qed.

(** One round of the outer loop, without any assumption on the list: the
    numbers that move are those greater than [key] at the end of the
    prefix. *)
Lemma insertion_body_shift (pre : list val) (key : val) (post : list val) :
  ∃ lo1 lo2,
    pre = lo1 ++ lo2 ∧
    insertion_body (Z.of_nat (length pre)) (pre ++ key :: post)
    = Ok (lo1 ++ key :: lo2 ++ post) ∧
    Forall (λ a, gt_val a key = true) lo2.
Proof.
  unfold insertion_body. rewrite getitem_middle by done. ok.
  destruct (insertion_while_spec pre (S (Z.to_nat (Z.of_nat (length pre))))
              key post key) as (lo1 & lo2 & y & Hpre & Hrun & Hhi & _); [lia|].
  exists lo1, lo2. rewrite Hrun. ok. split_and!; [done| |done].
  apply setitem_middle. lia.
Qed.

Lemma insertion_loop_stable (n : nat) :
  ∀ (B : list val) (j : nat),
    (length B - j)%nat = n →
    ∃ B',
      for_each (range (Z.of_nat j) (Z.of_nat (length B))) insertion_body B
      = Ok B' ∧
      ∀ o : option Z,
        filter (λ v, value v = o) B' = filter (λ v, value v = o) B.
Proof.
  induction n as [|n IH]; intros B j Hn.
  - exists B. by rewrite range_nil by lia.
  - destruct (lookup_lt_is_Some_2 B j) as [key Hkey]; [lia|].
    rewrite range_cons by lia. cbn [for_each].
    destruct (insertion_body_shift (take j B) key (drop (S j) B))
      as (lo1 & lo2 & Hlo & Hrun & Hgt).
    rewrite length_take_le in Hrun by lia.
    rewrite (take_drop_middle B j key Hkey) in Hrun. rewrite Hrun. ok.
    assert (∀ o : option Z,
              filter (λ v, value v = o) (lo1 ++ key :: lo2 ++ drop (S j) B)
              = filter (λ v, value v = o) B) as Hstep.
    { intros o. rewrite <- (take_drop_middle B j key Hkey) at 2. rewrite Hlo.
      rewrite <- (assoc_L (++)).
      rewrite !filter_app, !filter_cons, !filter_app. f_equal.
      destruct (decide (value key = o)) as [Hk|Hk]; [|done].
      assert (filter (λ v, value v = o) lo2 = []) as ->; [|done].
      clear -Hgt Hk. induction Hgt as [|a lo2 Ha _ IH]; [done|].
      rewrite filter_cons_False; [done|].
      apply gt_val_value in Ha. congruence. }
    assert (length (lo1 ++ key :: lo2 ++ drop (S j) B) = length B) as Hlen.
    { rewrite <- (take_drop_middle B j key Hkey) at 2. rewrite Hlo.
      rewrite !length_app. simpl. rewrite !length_app. lia. }
    destruct (IH (lo1 ++ key :: lo2 ++ drop (S j) B) (S j))
      as (B' & Hrun' & Hstable'); [lia|].
    exists B'. rewrite Hlen in Hrun'.
    replace (Z.of_nat j + 1) with (Z.of_nat (S j)) by lia.
    split; [done|]. intros o. by rewrite Hstable'.
Qed.

Lemma insertion_sort_stable_run (A : list val) :
  ∃ A',
    insertion_sort A = Ok A' ∧
    ∀ o : option Z,
      filter (λ v, value v = o) A' = filter (λ v, value v = o) A.
Proof.
  unfold insertion_sort. by apply (insertion_loop_stable (length A - 1) A 1).
Qed.

(** X3. [insertion_sort] is stable, on every list (integers, with or
    without infinities among them): the integers of each value come out in
    the order they came in. *)
Theorem insertion_sort_stable (A : list val) :
  ∃ A',
    insertion_sort A = Ok A' ∧
    ∀ n : Z,
      filter (λ v, value v = Some n) A' = filter (λ v, value v = Some n) A.
Proof.
  destruct (insertion_sort_stable_run A) as (A' & Hrun & Hstable).
  exists A'. split; [done|]. intros n. apply Hstable.
Qed.

(** On a sorted prefix followed by a number that is not smaller, a round of
    the outer loop changes nothing. *)
Lemma insertion_body_sorted (pre : list val) (key : val) (post : list val) :
  Forall (λ a, val_le a key) pre →
  insertion_body (Z.of_nat (length pre)) (pre ++ key :: post)
  = Ok (pre ++ key :: post).
Proof.
  intros Hle.
  destruct (insertion_body_shift pre key post) as (lo1 & lo2 & -> & Hrun & Hgt).
  rewrite Hrun. apply Forall_app in Hle as [_ Hle].
  destruct lo2 as [|a lo2]; [by rewrite (right_id_L [] (++))|].
  apply Forall_cons in Hle as [Hle _]. apply Forall_cons in Hgt as [Hgt _].
  rewrite gt_val_spec in Hgt. unfold val_le in Hle. by rewrite Hle in Hgt.
Qed.

Lemma insertion_loop_sorted (n : nat) :
  ∀ (B : list val) (j : nat),
    (length B - j)%nat = n →
    StronglySorted val_le B →
    for_each (range (Z.of_nat j) (Z.of_nat (length B))) insertion_body B
    = Ok B.
Proof.
  induction n as [|n IH]; intros B j Hn Hs.
  - by rewrite range_nil by lia.
  - destruct (lookup_lt_is_Some_2 B j) as [key Hkey]; [lia|].
    rewrite range_cons by lia. cbn [for_each].
    pose proof (insertion_body_sorted (take j B) key (drop (S j) B)) as Hrun.
    rewrite length_take_le in Hrun by lia.
    rewrite (take_drop_middle B j key Hkey) in Hrun. rewrite Hrun. 
    + ok. replace (Z.of_nat j + 1) with (Z.of_nat (S j)) by lia.
      apply IH; [lia|done].
    + rewrite <- (take_drop_middle B j key Hkey) in Hs.
      apply StronglySorted_app in Hs as (Hcross & _ & _).
      apply Forall_forall. intros a Ha. apply Hcross; [done|]. by left.
Qed.

(** X4. [insertion_sort] returns a list that is already in non-decreasing
    order as it is, the same objects at the same places. *)
Theorem insertion_sort_sorted (A : list val) :
  Sorted val_le A → insertion_sort A = Ok A.
Proof.
  intros Hs. unfold insertion_sort.
  apply (insertion_loop_sorted (length A - 1) A 1); [done|].
  by apply Sorted_StronglySorted; [apply _|].
Qed.

Lemma insertion_sort_sorted_witness :
  insertion_sort [PyInt 1 0; PyInt 2 1; PyInt 2 2; PyInf]
  = Ok [PyInt 1 0; PyInt 2 1; PyInt 2 2; PyInf].
Proof.
  apply (insertion_sort_sorted [PyInt 1 0; PyInt 2 1; PyInt 2 2; PyInf]).
  repeat constructor.
Defined.

(** X5. Sorting twice is sorting once: [insertion_sort] applied to its own
    result returns it unchanged. *)
Theorem insertion_sort_idempotent (A : list val) :
  ∃ A', insertion_sort A = Ok A' ∧ insertion_sort A' = Ok A'.
Proof.
  destruct (insertion_sort_run A) as (A' & Hrun & _ & Hs).
  exists A'. split; [done|].
  unfold insertion_sort. by apply (insertion_loop_sorted (length A' - 1) A' 1).
Qed.

(** ** The two sorts agree *)

(** Two sorted lists of integers in which the objects of each value come in
    the same order are the same list. *)
Lemma stable_sorted_unique (l1 : list val) :
  ∀ l2 : list val,
    Forall is_int l1 → Forall is_int l2 →
    StronglySorted val_le l1 → StronglySorted val_le l2 →
    (∀ n : Z, filter (λ v, value v = Some n) l1
              = filter (λ v, value v = Some n) l2) →
    l1 = l2.
Proof.
  induction l1 as [|x l1 IH]; intros l2 Hi1 Hi2 Hs1 Hs2 Hf.
  - destruct l2 as [|[m ?|] l2]; [done| |by apply Forall_cons in Hi2 as [[] _]].
    specialize (Hf m). by rewrite filter_cons_True in Hf.
  - apply Forall_cons in Hi1 as [Hx Hi1]. destruct x as [n xo|]; [|done].
    apply StronglySorted_cons in Hs1 as [Hx1 Hs1].
    destruct l2 as [|y l2].
    { specialize (Hf n). by rewrite filter_cons_True in Hf. }
    apply Forall_cons in Hi2 as [Hy Hi2]. destruct y as [m yo|]; [|done].
    apply StronglySorted_cons in Hs2 as [Hy2 Hs2].
    assert (m ≤ n) as Hmn.
    { assert (PyInt n xo ∈ PyInt m yo :: l2) as Hin.
      { eapply (list_elem_of_filter (λ v, value v = Some n)).
        rewrite <- Hf, filter_cons_True by done. by left. }
      apply elem_of_cons in Hin as [[= -> _]|Hin]; [done|].
      rewrite Forall_forall in Hy2. specialize (Hy2 _ Hin).
      unfold val_le in Hy2. simpl in Hy2. by apply bool_decide_eq_true in Hy2. }
    assert (n ≤ m) as Hnm.
    { assert (PyInt m yo ∈ PyInt n xo :: l1) as Hin.
      { eapply (list_elem_of_filter (λ v, value v = Some m)).
        rewrite Hf, filter_cons_True by done. by left. }
      apply elem_of_cons in Hin as [[= -> _]|Hin]; [done|].
      rewrite Forall_forall in Hx1. specialize (Hx1 _ Hin).
      unfold val_le in Hx1. simpl in Hx1. by apply bool_decide_eq_true in Hx1. }
    assert (m = n) as -> by lia.
    pose proof (Hf n) as Hfn. rewrite !filter_cons_True in Hfn by done.
    injection Hfn as -> Hfn. f_equal. apply IH; [done..|].
    intros k. destruct (decide (k = n)) as [->|Hk]; [done|].
    specialize (Hf k).
    by rewrite !filter_cons_False in Hf by (simpl; congruence).
Qed.

Lemma sub_whole (A : list val) : sub A 0 (Z.of_nat (length A) - 1) = A.
Proof.
  unfold sub. simpl. rewrite drop_0.
  apply take_ge. lia.
Qed.

(** X6. On a list of integers [merge_sort(A, 0, len(A) - 1)] and
    [insertion_sort(A)] leave the same list: the same objects in the same
    order. *)
Theorem merge_sort_insertion_sort_agree (A : list val) :
  Forall is_int A →
  ∃ A' ret,
    merge_sort A 0 (Z.of_nat (length A) - 1) = Ok (A', ret) ∧
    insertion_sort A = Ok A'.
Proof.
  intros Hint.
  destruct (merge_sort_run A 0 (Z.of_nat (length A) - 1) Hint)
    as (A' & Hrun & Hlen & _ & _ & Hs & Hperm & Hstable); [lia..|].
  assert (sub A' 0 (Z.of_nat (length A) - 1) = A') as HA'.
  { rewrite <- Hlen. apply sub_whole. }
  rewrite HA' in Hs, Hperm, Hstable. rewrite sub_whole in Hperm, Hstable.
  destruct (insertion_sort_run A) as (A'' & Hrun' & Hperm' & Hs').
  destruct (insertion_sort_stable_run A) as (A''' & Hrun'' & Hstable').
  rewrite Hrun' in Hrun''. injection Hrun'' as <-.
  eexists A', _. split; [exact Hrun|]. rewrite Hrun'. f_equal.
  apply stable_sorted_unique; [by rewrite Hperm'|by rewrite Hperm|done| |].
  - by apply Sorted_StronglySorted; [apply _|].
  - intros n. by rewrite Hstable', Hstable.
Qed.

Lemma merge_sort_insertion_sort_agree_witness :
  ∃ A' ret,
    merge_sort [PyInt 3 0; PyInt 1 1; PyInt 3 2; PyInt 1 3] 0
      (Z.of_nat (length [PyInt 3 0; PyInt 1 1; PyInt 3 2; PyInt 1 3]) - 1)
    = Ok (A', ret) ∧
    insertion_sort [PyInt 3 0; PyInt 1 1; PyInt 3 2; PyInt 1 3] = Ok A'.
Proof.
  apply (merge_sort_insertion_sort_agree
           [PyInt 3 0; PyInt 1 1; PyInt 3 2; PyInt 1 3]).
  repeat constructor.
Defined.

(** ** Indices out of range *)

Lemma getitem_ge {X} (l : list X) (i : Z) :
  Z.of_nat (length l) ≤ i → getitem l i = Raise IndexError.
Proof.
  intros Hi. unfold getitem, index.
  by rewrite !bool_decide_eq_false_2 by lia.
Qed.

Lemma getitem_outcome {X} (l : list X) (i : Z) :
  getitem l i = Raise IndexError ∨ ∃ v, getitem l i = Ok v.
Proof. unfold getitem. destruct (_ ≫= _); eauto. Qed.

Lemma setitem_outcome {X} (l : list X) (i : Z) (v : X) :
  setitem l i v = Raise IndexError ∨
  ∃ l', setitem l i v = Ok l' ∧ length l' = length l.
Proof.
  unfold setitem. destruct (index _ _); [|by left].
  right. eexists. split; [done|]. apply length_insert.
Qed.

(** A loop whose rounds keep [P] or raise [e] ends with [P] or raises
    [e]. *)
Lemma for_each_outcome {S} (P : S → Prop) (e : exn) (ks : list Z)
    (body : Z → S → result S) (s : S) :
  (∀ k s, P s → body k s = Raise e ∨ ∃ s', body k s = Ok s' ∧ P s') →
  P s →
  for_each ks body s = Raise e ∨ ∃ s', for_each ks body s = Ok s' ∧ P s'.
Proof.
  intros Hbody. revert s. induction ks as [|k ks IH]; intros s Hs.
  - right. by exists s.
  - cbn [for_each]. destruct (Hbody k s Hs) as [->|(s' & -> & Hs')]; [by left|].
    ok. by apply IH.
Qed.

(** If moreover some round raises [e] in every state, the loop raises. *)
Lemma for_each_raises {S} (P : S → Prop) (e : exn) (ks1 : list Z) (k : Z)
    (ks2 : list Z) (body : Z → S → result S) (s : S) :
  (∀ k s, P s → body k s = Raise e ∨ ∃ s', body k s = Ok s' ∧ P s') →
  (∀ s, P s → body k s = Raise e) →
  P s →
  for_each (ks1 ++ k :: ks2) body s = Raise e.
Proof.
  intros Hbody Hk Hs. rewrite for_each_app.
  destruct (for_each_outcome P e ks1 body s Hbody Hs) as [->|(s' & -> & Hs')];
    [done|].
  ok. cbn [for_each]. by rewrite Hk.
Qed.

Lemma copy_body_outcome (A : list val) (ix : Z → Z) (n : nat) (k : Z)
    (L : list val) :
  length L = n →
  (a ← getitem A (ix k); setitem L k a) = Raise IndexError ∨
  ∃ L', (a ← getitem A (ix k); setitem L k a) = Ok L' ∧ length L' = n.
Proof.
  intros HL. destruct (getitem_outcome A (ix k)) as [->|[a ->]]; [by left|].
  ok. destruct (setitem_outcome L k a) as [->|(L' & -> & HL')]; [by left|].
  right. exists L'. split; [done|lia].
Qed.

Lemma merge_body_outcome (L R : list val) (n : nat) (k : Z)
    (s : list val * Z * Z) :
  length s.1.1 = n →
  merge_body L R k s = Raise IndexError ∨
  ∃ s', merge_body L R k s = Ok s' ∧ length s'.1.1 = n.
Proof.
  destruct s as [[A i] j]. simpl. intros HA. unfold merge_body.
  destruct (getitem_outcome L i) as [->|[l ->]]; [by left|]. ok.
  destruct (getitem_outcome R j) as [->|[r ->]]; [by left|]. ok.
  destruct (le_val l r).
  - destruct (setitem_outcome A k l) as [->|(A' & -> & HA')]; [by left|].
    right. eexists. split; [done|]. simpl. lia.
  - destruct (setitem_outcome A k r) as [->|(A' & -> & HA')]; [by left|].
    right. eexists. split; [done|]. simpl. lia.
Qed.

(** The two copying loops and the sentinels raise [IndexError] or leave [L]
    and [R] with the lengths they were created with. *)
Lemma merge_split_outcome (A : list val) (p q r : Z) :
  merge_split A p q r = Raise IndexError ∨
  ∃ L R, merge_split A p q r = Ok (L, R) ∧
         length L = Z.to_nat (q - p + 1 + 1) ∧
         length R = Z.to_nat (r - q + 1).
Proof.
  unfold merge_split. cbv zeta.
  destruct (for_each_outcome
              (λ L : list val, length L = Z.to_nat (q - p + 1 + 1))
              IndexError (range 0 (q - p + 1))
              (λ j L, a ← getitem A (p + j); setitem L j a)
              (replicate (Z.to_nat (q - p + 1 + 1)) zero))
    as [->|(L & -> & HL)]; [|by rewrite length_replicate|by left|].
  { intros k s Hs. by apply (copy_body_outcome A (λ j, p + j)). }
  ok.
  destruct (for_each_outcome
              (λ R : list val, length R = Z.to_nat (r - q + 1))
              IndexError (range 0 (r - q))
              (λ j R, a ← getitem A (q + j + 1); setitem R j a)
              (replicate (Z.to_nat (r - q + 1)) zero))
    as [->|(R & -> & HR)]; [|by rewrite length_replicate|by left|].
  { intros k s Hs. by apply (copy_body_outcome A (λ j, q + j + 1)). }
  ok.
  destruct (setitem_outcome L (q - p + 1) PyInf) as [->|(L' & -> & HL')];
    [by left|]. ok.
  destruct (setitem_outcome R (r - q) PyInf) as [->|(R' & -> & HR')];
    [by left|]. ok.
  right. exists L', R'. split_and!; [done|lia..].
Qed.

Lemma merge_outcome (A : list val) (p q r : Z) :
  merge A p q r = Raise IndexError ∨
  ∃ A', merge A p q r = Ok A' ∧ length A' = length A.
Proof.
  unfold merge.
  destruct (merge_split_outcome A p q r) as [->|(L & R & -> & _)]; [by left|].
  ok. cbv zeta.
  destruct (for_each_outcome
              (λ s : list val * Z * Z, length s.1.1 = length A)
              IndexError (range p (r + 1)) (merge_body L R) (A, 0, 0))
    as [->|([[A' i] j] & -> & HA')]; [|done|by left|].
  { intros k s Hs. by apply merge_body_outcome. }
  ok. right. by exists A'.
Qed.

Lemma merge_sort_outcome (n : nat) :
  ∀ (A : list val) (p r : Z),
    Z.to_nat (r - p) = n →
    merge_sort A p r = Raise IndexError ∨
    ∃ A' ret, merge_sort A p r = Ok (A', ret) ∧ length A' = length A.
Proof.
  induction n as [n IH] using lt_wf_ind; intros A p r Hn.
  rewrite merge_sort_unfold. case_bool_decide as Hpr; [|right; by eexists _, _].
  cbv zeta.
  assert (p ≤ (p + r) `div` 2 < r) as Hq.
  { split; [apply Z.div_le_lower_bound; lia|apply Z.div_lt_upper_bound; lia]. }
  destruct (IH (Z.to_nat ((p + r) `div` 2 - p)) ltac:(lia) A p _ eq_refl)
    as [->|(A1 & ? & -> & HA1)]; [by left|]. ok.
  destruct (IH (Z.to_nat (r - ((p + r) `div` 2 + 1))) ltac:(lia) A1 _ r eq_refl)
    as [->|(A2 & ? & -> & HA2)]; [by left|]. ok.
  destruct (merge_outcome A2 p ((p + r) `div` 2) r) as [->|(A3 & -> & HA3)];
    [by left|]. ok.
  right. eexists _, _. split; [done|]. lia.
Qed.



(** [merge] reads [A[r]] in its second copying loop. *)
Lemma merge_out_of_range (A : list val) (p q r : Z) :
  0 ≤ p ≤ q → q < r → Z.of_nat (length A) ≤ r →
  merge A p q r = Raise IndexError.
Proof.
  intros Hpq Hqr Hlen. unfold merge, merge_split. cbv zeta.
  destruct (for_each_outcome (λ _ : list val, True)
              IndexError (range 0 (q - p + 1))
              (λ j L, a ← getitem A (p + j); setitem L j a)
              (replicate (Z.to_nat (q - p + 1 + 1)) zero))
    as [->|(L & -> & _)]; [|done|done|].
  { intros k s _.
    destruct (copy_body_outcome A (λ j, p + j) _ k s eq_refl)
      as [?|(? & ? & _)]; eauto. }
  ok.
  replace (r - q) with (0 + Z.of_nat (S (Z.to_nat (r - q - 1)))) at 1 by lia.
  rewrite range_snoc.
  rewrite (for_each_raises (λ _ : list val, True) IndexError); [done| | |done].
  - intros k s _.
    destruct (copy_body_outcome A (λ j, q + j + 1) _ k s eq_refl)
      as [?|(? & ? & _)]; eauto.
  - intros s _. by rewrite getitem_ge by lia.
Qed.

(** X8. With [0 ≤ p ≤ q < r], [r] past the end of the list and the range
    [p..r] not longer than the list ([r - p ≤ len(A)], as in
    [merge(A, p, q, len(A))]), [merge] raises [IndexError]. *)
Theorem merge_past_the_end (A : list val) (p q r : Z) :
  0 ≤ p ≤ q → q < r → Z.of_nat (length A) ≤ r →
  r - p ≤ Z.of_nat (length A) →
  merge A p q r = Raise IndexError.
Proof. intros Hpq Hqr Hlen _. by apply merge_out_of_range. Qed.

Lemma merge_past_the_end_witness :
  merge (ints [1; 3; 2]) 0 1 3 = Raise IndexError.
Proof. apply (merge_past_the_end (ints [1; 3; 2]) 0 1 3); simpl; lia. Defined.

Lemma merge_sort_out_of_range (n : nat) :
  ∀ (A : list val) (p r : Z),
    Z.to_nat (r - p) = n →
    0 ≤ p → p < r → Z.of_nat (length A) ≤ r →
    merge_sort A p r = Raise IndexError.
Proof.
  induction n as [n IH] using lt_wf_ind; intros A p r Hn Hp Hpr Hlen.
  rewrite merge_sort_unfold, bool_decide_eq_true_2 by done. cbv zeta.
  assert (p ≤ (p + r) `div` 2 < r) as Hq.
  { split; [apply Z.div_le_lower_bound; lia|apply Z.div_lt_upper_bound; lia]. }
  destruct (merge_sort_outcome _ A p ((p + r) `div` 2) eq_refl)
    as [->|(A1 & ? & -> & HA1)]; [done|]. ok.
  destruct (decide ((p + r) `div` 2 + 1 < r)) as [Hlt|Hge].
  - by rewrite (IH (Z.to_nat (r - ((p + r) `div` 2 + 1))) ltac:(lia) A1 _ r)
      by (done || lia).
  - rewrite (merge_sort_unfold A1), bool_decide_eq_false_2 by done. ok.
    by rewrite merge_out_of_range by lia.
Qed.

(** X9. With [0 ≤ p < r], [r] past the end of the list and the range
    [p..r] not longer than the list ([r - p ≤ len(A)]), as in the call
    [merge_sort(A, 0, len(A))], [merge_sort] raises [IndexError]. *)
Theorem merge_sort_past_the_end (A : list val) (p r : Z) :
  0 ≤ p → p < r → Z.of_nat (length A) ≤ r →
  r - p ≤ Z.of_nat (length A) →
  merge_sort A p r = Raise IndexError.
Proof. intros. by eapply merge_sort_out_of_range. Qed.

Lemma merge_sort_past_the_end_witness :
  merge_sort (ints [3; 1; 2]) 0 (Z.of_nat (length (ints [3; 1; 2])))
  = Raise IndexError.
Proof.
  apply (merge_sort_past_the_end (ints [3; 1; 2]) 0 3); simpl; lia.
Defined.

(** ** [merge] on runs that are not sorted, or empty *)

(** [merge] within bounds, the runs possibly empty. *)
Lemma merge_run (A : list val) (p q r : Z) :
  Forall is_int A →
  0 ≤ p → p - 1 ≤ q ≤ r → r < Z.of_nat (length A) →
  merge A p q r
  = Ok (take (Z.to_nat p) A
        ++ list_merge val_le (sub A p q) (sub A (q + 1) r)
        ++ drop (Z.to_nat (r + 1)) A).
Proof.
  intros Hint Hp Hpq Hr.
  pose proof (sub_frame A p r ltac:(lia) ltac:(lia)) as HA.
  rewrite <- (sub_app A p q r), <- (assoc_L (++)) in HA by lia.
  pose proof (sub_length A p q ltac:(lia) ltac:(lia) ltac:(lia)) as Hlenl.
  pose proof (sub_length A (q + 1) r ltac:(lia) ltac:(lia) ltac:(lia)) as Hlenr.
  assert (length (take (Z.to_nat p) A) = Z.to_nat p) as HlenA1.
  { rewrite length_take_le; lia. }
  assert (Forall is_int (sub A (q + 1) r)) as Hintr.
  { rewrite HA in Hint.
    by apply Forall_app in Hint as [_ [_ [? _]%Forall_app]%Forall_app]. }
  rewrite HA at 1. apply merge_spec; [done|lia..].
Qed.

(** X10. [merge(A, p, q, r)] within a list of integers, whether the two
    runs are sorted or not: the call returns, [A[p..r]] is the two-way
    merge of the runs [A[p..q]] and [A[q+1..r]] (at each step the head of
    the left run if it is [<=] the head of the right run, else the head of
    the right run), so the list holds the numbers it held, no sentinel
    among them, and nothing moves outside [A[p..r]]. *)
Theorem merge_refines_list_merge (A : list val) (p q r : Z) :
  Forall is_int A →
  0 ≤ p → p - 1 ≤ q ≤ r → r < Z.of_nat (length A) →
  ∃ A',
    merge A p q r = Ok A' ∧
    sub A' p r = list_merge val_le (sub A p q) (sub A (q + 1) r) ∧
    take (Z.to_nat p) A' = take (Z.to_nat p) A ∧
    drop (Z.to_nat (r + 1)) A' = drop (Z.to_nat (r + 1)) A ∧
    A' ≡ₚ A ∧
    Forall is_int A'.
Proof.
  intros Hint Hp Hpq Hr. eexists. split; [by apply merge_run|].
  pose proof (sub_length A p r ltac:(lia) ltac:(lia) ltac:(lia)) as Hlen.
  assert (length (take (Z.to_nat p) A) = Z.to_nat p) as HlenA1.
  { rewrite length_take_le; lia. }
  assert (list_merge val_le (sub A p q) (sub A (q + 1) r) ≡ₚ sub A p r)
    as Hperm.
  { by rewrite merge_Permutation, sub_app by lia. }
  assert (take (Z.to_nat p) A
          ++ list_merge val_le (sub A p q) (sub A (q + 1) r)
          ++ drop (Z.to_nat (r + 1)) A ≡ₚ A) as HpermA.
  { rewrite Hperm. by rewrite <- sub_frame by lia. }
  split_and!.
  - apply sub_of_frame; [lia|]. rewrite Hperm. lia.
  - rewrite <- HlenA1 at 1. by rewrite take_app_length.
  - rewrite (assoc_L (++)).
    replace (Z.to_nat (r + 1))
      with (length (take (Z.to_nat p) A
                    ++ list_merge val_le (sub A p q) (sub A (q + 1) r))) at 1.
    + by rewrite drop_app_length.
    + rewrite length_app, Hperm. lia.
  - done.
  - by rewrite HpermA.
Qed.

(** Two runs in decreasing order. *)
Lemma merge_refines_list_merge_witness :
  ∃ A',
    merge (ints [9; 4; 7; 1; 5]) 1 2 4 = Ok A' ∧
    sub A' 1 4
    = list_merge val_le (sub (ints [9; 4; 7; 1; 5]) 1 2)
        (sub (ints [9; 4; 7; 1; 5]) (2 + 1) 4) ∧
    take (Z.to_nat 1) A' = take (Z.to_nat 1) (ints [9; 4; 7; 1; 5]) ∧
    drop (Z.to_nat (4 + 1)) A' = drop (Z.to_nat (4 + 1)) (ints [9; 4; 7; 1; 5]) ∧
    A' ≡ₚ ints [9; 4; 7; 1; 5] ∧
    Forall is_int A'.
Proof.
  apply (merge_refines_list_merge (ints [9; 4; 7; 1; 5]) 1 2 4).
  - repeat constructor.
  - lia.
  - lia.
  - simpl. lia.
Defined.

(** X11. When one of the two runs is empty ([q = p - 1] or [q = r]),
    [merge] within a list of integers returns the list as it is. *)
Theorem merge_empty_run (A : list val) (p q r : Z) :
  Forall is_int A →
  0 ≤ p → p - 1 ≤ r → r < Z.of_nat (length A) →
  q = p - 1 ∨ q = r →
  merge A p q r = Ok A.
Proof.
  intros Hint Hp Hpr Hr Hq. rewrite merge_run by (done || lia). f_equal.
  assert (list_merge val_le (sub A p q) (sub A (q + 1) r) = sub A p r) as ->.
  { rewrite <- (sub_app A p q r) by lia. destruct Hq as [->| ->].
    - replace (sub A p (p - 1)) with (@nil val); [by rewrite list_merge_nil_l|].
      unfold sub. by replace (Z.to_nat (p - 1 - p + 1)) with 0%nat by lia.
    - replace (sub A (r + 1) r) with (@nil val).
      + by rewrite list_merge_nil_r, (right_id_L [] (++)).
      + unfold sub. by replace (Z.to_nat (r - (r + 1) + 1)) with 0%nat by lia. }
  symmetry. apply sub_frame; lia.
Qed.

Lemma merge_empty_run_witness :
  merge (ints [9; 4; 7]) 1 0 2 = Ok (ints [9; 4; 7]).
Proof.
  apply (merge_empty_run (ints [9; 4; 7]) 1 0 2).
  - repeat constructor.
  - lia.
  - lia.
  - simpl. lia.
  - by left.
Defined.




(** ** The sentinel of [merge] and lists that hold [float('inf')] *)

(** The last loop of [merge] up to the first infinity of [L] and of [R],
    whatever follows these in the two lists. *)
Lemma merge_loop_tails (n : nat) :
  ∀ (l r Ld Lt Rd Rt A1 mid A2 : list val) (k i j : Z),
    (length l + length r)%nat = n →
    length mid = n →
    Forall is_int r →
    k = Z.of_nat (length A1) →
    i = Z.of_nat (length Ld) →
    j = Z.of_nat (length Rd) →
    for_each (range k (k + Z.of_nat n))
      (merge_body (Ld ++ l ++ PyInf :: Lt) (Rd ++ r ++ PyInf :: Rt))
      (A1 ++ mid ++ A2, i, j)
    = Ok (A1 ++ list_merge val_le l r ++ A2,
          i + Z.of_nat (length l), j + Z.of_nat (length r)).
Proof.
  induction n as [|n IH];
    intros l r Ld Lt Rd Rt A1 mid A2 k i j Hn Hmid Hint Hk Hi Hj.
  - destruct l, r, mid; try done. rewrite range_nil by lia.
    apply merge_state_eq; simpl; [done|lia|lia].
  - destruct mid as [|m mid]; [done|]. simpl in Hmid.
    rewrite range_cons by lia. cbn [for_each].
    replace (k + Z.of_nat (S n)) with (k + 1 + Z.of_nat n) by lia.
    destruct l as [|x l], r as [|y r]; [done| | |].
    + apply Forall_cons in Hint as [Hy Hint].
      cbn [app]. rewrite (merge_body_right Ld Lt Rd) by (by destruct y).
      ok. specialize (IH [] r Ld Lt (Rd ++ [y]) Rt (A1 ++ [y]) mid A2).
      rewrite <- !(assoc_L (++)) in IH. simpl in IH. rewrite IH;
        [|simpl in Hn; lia|lia|done|rewrite length_app; simpl; lia|done
         |rewrite length_app; simpl; lia].
      rewrite list_merge_nil_l.
      apply merge_state_eq; simpl length; [done|lia|lia].
    + cbn [app]. rewrite (merge_body_left Ld (l ++ PyInf :: Lt) Rd Rt)
        by (done || by destruct x).
      ok. specialize (IH l [] (Ld ++ [x]) Lt Rd Rt (A1 ++ [x]) mid A2).
      rewrite <- !(assoc_L (++)) in IH. simpl in IH. rewrite IH;
        [|simpl in Hn |- *; lia|lia|done|rewrite length_app; simpl; lia
         |rewrite length_app; simpl; lia|done].
      rewrite list_merge_nil_r.
      apply merge_state_eq; simpl length; [done|lia|lia].
    + rewrite list_merge_cons. cbn [app].
      destruct (le_val x y) eqn:Hle.
      * rewrite decide_True by done.
        rewrite (merge_body_left Ld (l ++ PyInf :: Lt) Rd (r ++ PyInf :: Rt))
          by done.
        ok. specialize (IH l (y :: r) (Ld ++ [x]) Lt Rd Rt (A1 ++ [x]) mid A2).
        rewrite <- !(assoc_L (++)) in IH. simpl in IH. rewrite IH;
          [|simpl in Hn |- *; lia|lia|done|rewrite length_app; simpl; lia
           |rewrite length_app; simpl; lia|done].
        apply merge_state_eq; simpl length; [done|lia|lia].
      * rewrite decide_False by (unfold val_le; congruence).
        apply Forall_cons in Hint as [Hy Hint].
        rewrite (merge_body_right Ld (l ++ PyInf :: Lt) Rd (r ++ PyInf :: Rt))
          by done.
        ok. specialize (IH (x :: l) r Ld Lt (Rd ++ [y]) Rt (A1 ++ [y]) mid A2).
        rewrite <- !(assoc_L (++)) in IH. simpl in IH. rewrite IH;
          [|simpl in Hn |- *; lia|lia|done|rewrite length_app; simpl; lia|done
           |rewrite length_app; simpl; lia].
        apply merge_state_eq; simpl length; [done|lia|lia].
Qed.

Lemma range_app (lo mid hi : Z) :
  lo ≤ mid ≤ hi → range lo hi = range lo mid ++ range mid hi.
Proof.
  intros Hm. unfold range.
  replace (hi - lo) with ((mid - lo) + (hi - mid)) by lia.
  rewrite seqZ_app by lia. do 2 f_equal. lia.
Qed.

(** X19. [merge] relies on its sentinel being larger than every element.
    When the right run holds a [float('inf')] that is not its last element
    (before it only integers), the infinity of the list takes the part of
    the sentinel of [R], the sentinel of [L] is copied into the list, and
    the next round reads [L] past its end: [merge] raises [IndexError]. *)
Theorem merge_inf_in_right_run (A1 l rr1 rr2 A2 : list val) (p q r : Z) :
  Forall is_int rr1 →
  rr2 ≠ [] →
  p = Z.of_nat (length A1) →
  q = p + Z.of_nat (length l) - 1 →
  r = q + Z.of_nat (length (rr1 ++ PyInf :: rr2)) →
  merge (A1 ++ l ++ (rr1 ++ PyInf :: rr2) ++ A2) p q r = Raise IndexError.
Proof.
  intros Hint Hrr2 Hp Hq Hr. unfold merge.
  rewrite (merge_split_spec A1 l (rr1 ++ PyInf :: rr2) A2 p q r) by done. ok.
  rewrite length_app in Hr. simpl in Hr.
  destruct rr2 as [|z rr2]; [done|]. simpl in Hr.
  set (n0 := (length l + length rr1)%nat).
  rewrite (range_app p (p + Z.of_nat n0) (r + 1)) by lia.
  rewrite for_each_app.
  pose proof (merge_loop_tails n0 l rr1 [] [] [] (z :: rr2 ++ [PyInf])
                A1 (l ++ rr1) (PyInf :: z :: rr2 ++ A2) p 0 0) as Hloop.
  cbn [app] in Hloop.
  replace (A1 ++ l ++ (rr1 ++ PyInf :: z :: rr2) ++ A2)
    with (A1 ++ (l ++ rr1) ++ PyInf :: z :: rr2 ++ A2)
    by (by rewrite <- !(assoc_L (++))).
  replace ((rr1 ++ PyInf :: z :: rr2) ++ [PyInf])
    with (rr1 ++ PyInf :: z :: rr2 ++ [PyInf])
    by (by rewrite <- !(assoc_L (++))).
  rewrite Hloop; [|done|by rewrite length_app|done..]. ok.
  rewrite (range_cons (p + Z.of_nat n0)) by lia. cbn [for_each].
  rewrite (assoc_L (++) A1).
  rewrite (merge_body_left l [] rr1 (z :: rr2 ++ [PyInf])
             (A1 ++ list_merge val_le l rr1) (z :: rr2 ++ A2)
             PyInf PyInf PyInf); [|done| |lia..].
  - ok. rewrite (range_cons (p + Z.of_nat n0 + 1)) by lia. cbn [for_each].
    unfold merge_body.
    rewrite (getitem_ge (l ++ [PyInf])) by (rewrite length_app; simpl; lia).
    done.
  - rewrite length_app, merge_Permutation, length_app. lia.
Qed.

Lemma merge_inf_in_right_run_witness :
  merge ([PyInt 0 0] ++ [PyInt 1 1; PyInt 4 2]
           ++ ([PyInt 2 3] ++ PyInf :: [PyInt 3 4]) ++ [])
    1 2 5
  = Raise IndexError.
Proof.
  apply (merge_inf_in_right_run [PyInt 0 0] [PyInt 1 1; PyInt 4 2]
           [PyInt 2 3] [PyInt 3 4] [] 1 2 5).
  - repeat constructor.
  - done.
  - done.
  - done.
  - done.
Defined.

(** * Further properties of the classes *)

(** ** [save_hyperparameters] on any instance *)

Lemma hparams_dict_NoDup (ignore : list string)
    (local_vars : list (string * pyval)) :
  NoDup local_vars.*1 → NoDup (hparams_dict ignore local_vars).*1.
Proof.
  intros Hnd. eapply sublist_NoDup; [done|].
  apply fmap_sublist, sublist_filter.
Qed.

Lemma hparams_dict_keys (ignore : list string)
    (local_vars : list (string * pyval)) (k : string) :
  k ∈ (hparams_dict ignore local_vars).*1 →
  (k ∈ local_vars.*1) ∧ (k ∉ ignore) ∧ (k ≠ "self") ∧
  (¬ String.prefix "_" k).
Proof.
  intros [[k' v] [-> Hin]]%list_elem_of_fmap.
  apply list_elem_of_filter in Hin as [[Hin Hpre] Hlv]. simpl in *.
  split_and!; [|..|done].
  - apply list_elem_of_fmap. by exists (k', v).
  - intros ?. apply Hin, elem_of_app. by left.
  - intros ->. apply Hin, elem_of_app. right. by constructor.
Qed.

(** X13. The attributes after [save_hyperparameters], on an instance that
    already has attributes: the saved variables (those of the frame whose
    name is not ignored, is not [self] and does not start with an
    underscore), then [hparams] bound to the dict of the saved variables,
    then the attributes the instance had. *)
Theorem save_hyperparameters_union (self : gmap string pyval)
    (ignore : list string) (local_vars : list (string * pyval)) :
  NoDup local_vars.*1 →
  save_hyperparameters self ignore local_vars
  = list_to_map (hparams_dict ignore local_vars)
    ∪ <["hparams" := VDict (hparams_dict ignore local_vars)]> self.
Proof.
  intros Hnd%(hparams_dict_NoDup ignore). apply map_eq. intros k.
  unfold save_hyperparameters. cbv zeta.
  destruct (decide (k ∈ (hparams_dict ignore local_vars).*1)) as [Hin|Hout].
  - apply list_elem_of_fmap in Hin as [[k' v] [-> Hin]]. simpl.
    rewrite (setattr_loop_lookup _ _ k' v) by done. symmetry.
    apply lookup_union_Some_raw. left. by apply elem_of_list_to_map_1.
  - rewrite setattr_loop_other by done. symmetry.
    apply lookup_union_r. by apply not_elem_of_list_to_map_1.
Qed.

Lemma save_hyperparameters_union_witness :
  save_hyperparameters {["board" := VNone]} ["c"]
    [("self", VNone); ("a", VInt 1); ("c", VInt 3)]
  = list_to_map (hparams_dict ["c"]
                   [("self", VNone); ("a", VInt 1); ("c", VInt 3)])
    ∪ <["hparams" :=
          VDict (hparams_dict ["c"]
                   [("self", VNone); ("a", VInt 1); ("c", VInt 3)])]>
        {["board" := VNone]}.
Proof.
  apply (save_hyperparameters_union {["board" := VNone]} ["c"]
           [("self", VNone); ("a", VInt 1); ("c", VInt 3)]).
  apply (bool_decide_unpack _). vm_compute. exact I.
Defined.

(** X14. [save_hyperparameters] never touches an attribute whose name
    starts with an underscore, nor the attribute [self]: such a local
    variable of the frame is not saved, whatever [ignore] is. *)
Theorem save_hyperparameters_private (self : gmap string pyval)
    (ignore : list string) (local_vars : list (string * pyval)) (k : string) :
  String.prefix "_" k ∨ k = "self" →
  save_hyperparameters self ignore local_vars !! k = self !! k.
Proof.
  intros Hk. unfold save_hyperparameters. cbv zeta.
  rewrite setattr_loop_other.
  - apply lookup_insert_ne. intros <-. by destruct Hk.
  - intros (_ & _ & Hself & Hpre)%hparams_dict_keys. by destruct Hk.
Qed.

Lemma save_hyperparameters_private_witness :
  save_hyperparameters ∅ [] [("self", VNone); ("_tmp", VInt 1); ("a", VInt 2)]
    !! "_tmp"
  = (∅ : gmap string pyval) !! "_tmp".
Proof.
  apply (save_hyperparameters_private ∅ []
           [("self", VNone); ("_tmp", VInt 1); ("a", VInt 2)] "_tmp").
  left. exact I.
Defined.

(** ** [Trainer] *)


(** [Trainer(3, 1e-400, 0)]: the literal underflows to [0.0], the
    assertion holds. *)
Example Trainer_underflow_example :
  eq_zero (VFloat 1 (-400)) = true ∧
  eq_zero (VFloat 1 (-300)) = false ∧
  eq_zero (VFloat 0 5) = true ∧
  ∃ inst,
    construct (λ self, Trainer___init__ self (VInt 3) (VFloat 1 (-400)) (VInt 0))
    = Ok inst.
Proof. split_and!; [by vm_compute..|]. eexists. by vm_compute. Qed.


(** ** [ProgressBoard.draw] *)

Section draw.
Context {num : Type} (mean : list num → num).
Implicit Types (self : Board.board (num:=num)) (label l : string).
Implicit Types (d raw : list (string * list (Board.Point (num:=num)))).













End draw.



